(** * GSC ledger core: Transaction, Block and GSCBlockchain

    A shallow embedding of the JavaScript ledger engine
    (Transaction.js, Block.js, Blockchain.js) and the properties of it
    that the specification states.

    Conventions of the model:
    - a JS string is a [string] of bytes (its UTF-8 encoding);
    - a JS number holding a count (index, nonce, timestamp) is a [Z];
    - a JS number holding an amount of coins is an exact rational [Q] in
      the modules [Transaction], [Block] and [GSCBlockchain], and the
      balance table is a finite map from addresses to such amounts.
      That is what the code computes as long as every amount is a
      finite number, no sum is rounded, and no address names a member
      that the table inherits from [Object.prototype] (see
      [inherited]);
    - where a rounding, a NaN or an inherited member decides what the
      code answers (what isValid accepts, what the mempool admits),
      module [Binary64] embeds the same methods with amounts as IEEE
      754 binary64 numbers;
    - [crypto.createHash('sha256').update(s).digest('hex')] is the
      function [sha256_hex] below, written from FIPS 180-4;
    - [Date.now()] is an explicit argument of whatever reads the clock;
    - the unbounded [while] loop of [mineBlock] takes a fuel argument and
      answers [None] when the fuel runs out before the target is met. *)

From Stdlib Require Import Floats.
From Stdlib Require Import ZArith QArith Qpower Lia Lqa Bool List Ascii String.
From stdpp Require Import gmap strings list fin_maps.
Import ListNotations.

Set Warnings "-inexact-float".

Local Open Scope string_scope.
Local Open Scope Z_scope.

(** ** SHA-256 (FIPS 180-4) on byte strings *)

Module SHA256.

(** Reduction modulo [2^32] of a non-negative integer. *)
Definition w32 (x : Z) : Z := Z.land x 4294967295.

Definition rotr (n x : Z) : Z :=
  Z.lor (Z.shiftr x n) (w32 (Z.shiftl x (32 - n))).

Definition Ch (x y z : Z) : Z :=
  Z.lxor (Z.land x y) (Z.land (Z.lxor x 4294967295) z).
Definition Maj (x y z : Z) : Z :=
  Z.lxor (Z.lxor (Z.land x y) (Z.land x z)) (Z.land y z).
Definition Sigma0 (x : Z) : Z :=
  Z.lxor (Z.lxor (rotr 2 x) (rotr 13 x)) (rotr 22 x).
Definition Sigma1 (x : Z) : Z :=
  Z.lxor (Z.lxor (rotr 6 x) (rotr 11 x)) (rotr 25 x).
Definition sigma0 (x : Z) : Z :=
  Z.lxor (Z.lxor (rotr 7 x) (rotr 18 x)) (Z.shiftr x 3).
Definition sigma1 (x : Z) : Z :=
  Z.lxor (Z.lxor (rotr 17 x) (rotr 19 x)) (Z.shiftr x 10).

(** The round constants are the first 32 bits of the fractional parts
    of the cube roots of the first 64 primes, the initial hash value
    those of the square roots of the first 8 primes. *)
Definition primes64 : list Z :=
  [2; 3; 5; 7; 11; 13; 17; 19; 23; 29; 31; 37; 41; 43; 47; 53;
   59; 61; 67; 71; 73; 79; 83; 89; 97; 101; 103; 107; 109; 113; 127; 131;
   137; 139; 149; 151; 157; 163; 167; 173; 179; 181; 191; 193; 197; 199;
   211; 223; 227; 229; 233; 239; 241; 251; 257; 263; 269; 271; 277; 281;
   283; 293; 307; 311].

(** Largest [r < 2^bits] with [r^3 <= n], found bit by bit. *)
Fixpoint cbrt_bits (bits : nat) (n r : Z) : Z :=
  match bits with
  | O => r
  | S b =>
      let r' := Z.lor r (Z.shiftl 1 (Z.of_nat b)) in
      cbrt_bits b n (if r' * r' * r' <=? n then r' else r)
  end.

Definition K : list Z :=
  Eval vm_compute in
    map (fun p => w32 (cbrt_bits 36 (p * 2 ^ 96) 0)) primes64.

Definition H0 : list Z :=
  Eval vm_compute in
    map (fun p => w32 (Z.sqrt (p * 2 ^ 64))) (firstn 8 primes64).

(** Padding: a 1 bit, zero bits up to 56 mod 64 bytes, then the
    message length in bits as a 64-bit big-endian integer. *)
Definition be_bytes (n : nat) (x : Z) : list Z :=
  map (fun i => Z.shiftr x (8 * Z.of_nat i) mod 256) (rev (seq 0 n)).

Definition pad (msg : list Z) : list Z :=
  let len := Z.of_nat (length msg) in
  let zeros := Z.to_nat ((55 - len) mod 64) in
  msg ++ 128 :: repeat 0 zeros ++ be_bytes 8 (8 * len).

Fixpoint be_words (fuel : nat) (bs : list Z) : list Z :=
  match fuel, bs with
  | S f, b0 :: b1 :: b2 :: b3 :: rest =>
      (((b0 * 256 + b1) * 256 + b2) * 256 + b3) :: be_words f rest
  | _, _ => []
  end.

(** Message schedule, kept newest first: [sched] holds W[t-1], W[t-2], ... *)
Fixpoint extend (n : nat) (sched : list Z) : list Z :=
  match n with
  | O => sched
  | S n' =>
      let wt :=
        w32 (sigma1 (nth 1 sched 0) + nth 6 sched 0
             + sigma0 (nth 14 sched 0) + nth 15 sched 0) in
      extend n' (wt :: sched)
  end.

Definition schedule (block : list Z) : list Z :=
  rev (extend 48 (rev block)).

Record regs := Regs { ra : Z; rb : Z; rc : Z; rd : Z;
                      re : Z; rf : Z; rg : Z; rh : Z }.

Definition round (s : regs) (kw : Z * Z) : regs :=
  let t1 := rh s + Sigma1 (re s) + Ch (re s) (rf s) (rg s) + fst kw + snd kw in
  let t2 := Sigma0 (ra s) + Maj (ra s) (rb s) (rc s) in
  Regs (w32 (t1 + t2)) (ra s) (rb s) (rc s) (w32 (rd s + t1)) (re s) (rf s) (rg s).

Definition regs_of (h : list Z) : regs :=
  Regs (nth 0 h 0) (nth 1 h 0) (nth 2 h 0) (nth 3 h 0)
       (nth 4 h 0) (nth 5 h 0) (nth 6 h 0) (nth 7 h 0).

Definition compress (h : list Z) (block : list Z) : list Z :=
  let s := fold_left round (combine K (schedule block)) (regs_of h) in
  [ w32 (nth 0 h 0 + ra s); w32 (nth 1 h 0 + rb s);
    w32 (nth 2 h 0 + rc s); w32 (nth 3 h 0 + rd s);
    w32 (nth 4 h 0 + re s); w32 (nth 5 h 0 + rf s);
    w32 (nth 6 h 0 + rg s); w32 (nth 7 h 0 + rh s) ].

Fixpoint blocks (fuel : nat) (h : list Z) (ws : list Z) : list Z :=
  match fuel, ws with
  | S f, _ :: _ => blocks f (compress h (firstn 16 ws)) (skipn 16 ws)
  | _, _ => h
  end.

Definition digest (msg : list Z) : list Z :=
  let bs := pad msg in
  let ws := be_words (length bs) bs in
  blocks (length ws) H0 ws.

Definition hex_digit (d : Z) : ascii :=
  ascii_of_N (Z.to_N (if d <? 10 then 48 + d else 87 + d)).

(** The eight lower-case hexadecimal digits of a 32-bit word. *)
Definition hex_word (x : Z) (k : string) : string :=
  String (hex_digit (Z.shiftr x 28 mod 16)) (
  String (hex_digit (Z.shiftr x 24 mod 16)) (
  String (hex_digit (Z.shiftr x 20 mod 16)) (
  String (hex_digit (Z.shiftr x 16 mod 16)) (
  String (hex_digit (Z.shiftr x 12 mod 16)) (
  String (hex_digit (Z.shiftr x 8 mod 16)) (
  String (hex_digit (Z.shiftr x 4 mod 16)) (
  String (hex_digit (x mod 16)) k))))))).

Definition bytes_of_string (s : string) : list Z :=
  map (fun c => Z.of_N (N_of_ascii c)) (list_ascii_of_string s).

Definition hex (s : string) : string :=
  let h := digest (bytes_of_string s) in
  hex_word (nth 0 h 0) (hex_word (nth 1 h 0) (hex_word (nth 2 h 0) (
  hex_word (nth 3 h 0) (hex_word (nth 4 h 0) (hex_word (nth 5 h 0) (
  hex_word (nth 6 h 0) (hex_word (nth 7 h 0) ""))))))).

End SHA256.

(** [crypto.createHash('sha256').update(s).digest('hex')] *)
Definition sha256_hex (s : string) : string := SHA256.hex s.


(** ** JavaScript helpers: truthiness, number printing, JSON text *)

(** [x < y] on numbers *)
Definition Qlt_bool (x y : Q) : bool :=
  Qnum x * QDen y <? Qnum y * QDen x.

(** [!s] is true exactly for the empty string. *)
Definition falsy_str (s : string) : bool := String.eqb s "".

(** [k] names a member that every object inherits from
    [Object.prototype]. *)
Definition Object_prototype_names : list string :=
  [ "constructor"; "__defineGetter__"; "__defineSetter__"; "hasOwnProperty";
    "__lookupGetter__"; "__lookupSetter__"; "isPrototypeOf";
    "propertyIsEnumerable"; "toString"; "valueOf"; "__proto__";
    "toLocaleString" ].

Definition inherited (k : string) : bool :=
  existsb (String.eqb k) Object_prototype_names.

(** [c.repeat(n)] for a one-character string [c] *)
Fixpoint String_repeat (c : ascii) (n : nat) : string :=
  match n with
  | O => ""
  | S n' => String c (String_repeat c n')
  end.

Definition digit_char (d : Z) : ascii := ascii_of_N (Z.to_N (48 + d)).

Fixpoint nat_digits (fuel : nat) (n : Z) (acc : string) : string :=
  match fuel with
  | O => acc
  | S f =>
      let acc' := String (digit_char (n mod 10)) acc in
      if n / 10 =? 0 then acc' else nat_digits f (n / 10) acc'
  end.

(** Decimal digits of [n >= 0]; a number below [2^k] has at most [k]
    decimal digits. *)
Definition decimal (n : Z) : string :=
  nat_digits (S (Z.to_nat (Z.log2 n))) n "".

(** [String(n)] for an integral number. *)
Definition Z_toString (n : Z) : string :=
  if n <? 0 then "-" +:+ decimal (- n) else decimal n.

Fixpoint frac_digits (fuel : nat) (r d : Z) : string :=
  match fuel with
  | O => ""
  | S f =>
      if r =? 0 then ""
      else String (digit_char (10 * r / d)) (frac_digits f (10 * r mod d) d)
  end.

(** [String(q)] for an amount: integer part, then the decimal expansion
    of the fractional part when there is one.  It agrees with
    Number::toString on short decimals such as [255], [0.1] or [50.1];
    expansions are cut after 20 places, and an amount below 1e-6 or
    from 1e21 on is written out in full, where Number::toString uses
    an exponent ([Binary64.Number_toString] below is that algorithm). *)
Definition Number_toString (q : Q) : string :=
  let d := Z.pos (Qden q) in
  let a := Z.abs (Qnum q) in
  (if Qnum q <? 0 then "-" else "")
  +:+ decimal (a / d)
  +:+ (if a mod d =? 0 then "" else "." +:+ frac_digits 20 (a mod d) d).

Definition dquote : ascii := "034"%char.
Definition backslash : ascii := "092"%char.

(** One character of a JSON string literal, as JSON.stringify quotes it. *)
Definition json_char (c : ascii) : string :=
  let n := Z.of_N (N_of_ascii c) in
  if n =? 34 then String backslash (String dquote "")
  else if n =? 92 then String backslash (String backslash "")
  else if n =? 8 then String backslash "b"
  else if n =? 9 then String backslash "t"
  else if n =? 10 then String backslash "n"
  else if n =? 12 then String backslash "f"
  else if n =? 13 then String backslash "r"
  else if n <? 32 then
    String backslash ("u00" +:+ String (SHA256.hex_digit (n / 16))
                                   (String (SHA256.hex_digit (n mod 16)) ""))
  else String c "".

Fixpoint json_chars (s : string) : string :=
  match s with
  | EmptyString => ""
  | String c s' => json_char c +:+ json_chars s'
  end.

Definition json_string (s : string) : string :=
  String dquote (json_chars s +:+ String dquote "").

Definition json_member (key value : string) : string :=
  json_string key +:+ ":" +:+ value.

Fixpoint json_join (items : list string) : string :=
  match items with
  | [] => ""
  | [x] => x
  | x :: rest => x +:+ "," +:+ json_join rest
  end.

(** ** Transaction.js *)

Module Transaction.

Record t := mk {
  sender : string;
  receiver : string;
  amount : Q;
  fee : Q;
  timestamp : Z;
  signature : string;
  txId : string
}.

Definition set_txId (v : string) (tx : t) : t :=
  mk (sender tx) (receiver tx) (amount tx) (fee tx) (timestamp tx)
     (signature tx) v.

Definition set_signature (v : string) (tx : t) : t :=
  mk (sender tx) (receiver tx) (amount tx) (fee tx) (timestamp tx)
     v (txId tx).

(** sha256 of sender + receiver + amount + fee + timestamp *)
Definition calculateHash (tx : t) : string :=
  sha256_hex (sender tx +:+ receiver tx +:+ Number_toString (amount tx)
              +:+ Number_toString (fee tx) +:+ Z_toString (timestamp tx)).

(** [new Transaction(sender, receiver, amount, fee, timestamp)]; [now]
    is what [Date.now()] answers when the timestamp is null or 0.
    Amount and fee are finite numbers, which parseFloat gives back as
    they are. *)
Definition new (now : Z) (sender receiver : string) (amount fee : Q)
    (timestamp : option Z) : t :=
  let ts := match timestamp with
            | Some ts => if ts =? 0 then now else ts
            | None => now
            end in
  let this := mk sender receiver amount fee ts "" "" in
  set_txId (calculateHash this) this.

(** On amounts that are numbers; what the two comparisons make of NaN
    is shown by [Binary64.Transaction.isValid] below. *)
Definition isValid (tx : t) : bool :=
  if falsy_str (sender tx) || falsy_str (receiver tx) then false
  else if Qle_bool (amount tx) 0 then false
  else if Qlt_bool (fee tx) 0 then false
  else if String.eqb (sender tx) "COINBASE" || String.eqb (sender tx) "GENESIS"
  then true
  else String.eqb (txId tx) (calculateHash tx).

Definition signTransaction (privateKey : string) (tx : t) : t :=
  set_signature (sha256_hex (calculateHash tx +:+ privateKey)) tx.

(** The text JSON.stringify produces for a transaction, through toJSON. *)
Definition toJSON (tx : t) : string :=
  "{" +:+ json_join
    [ json_member "sender" (json_string (sender tx));
      json_member "receiver" (json_string (receiver tx));
      json_member "amount" (Number_toString (amount tx));
      json_member "fee" (Number_toString (fee tx));
      json_member "timestamp" (Z_toString (timestamp tx));
      json_member "signature" (json_string (signature tx));
      json_member "txId" (json_string (txId tx)) ] +:+ "}".

(** The plain object toJSON returns and fromJSON reads, with its seven
    properties. *)
Record data := mkData {
  d_sender : string;
  d_receiver : string;
  d_amount : Q;
  d_fee : Q;
  d_timestamp : Z;
  d_signature : string;
  d_txId : string
}.

Definition toJSON_object (tx : t) : data :=
  mkData (sender tx) (receiver tx) (amount tx) (fee tx) (timestamp tx)
         (signature tx) (txId tx).

(** [Transaction.fromJSON(data)]: a new transaction from the first five
    properties, then signature and identifier overwritten with the
    stored ones. *)
Definition fromJSON (now : Z) (d : data) : t :=
  let tx := new now (d_sender d) (d_receiver d) (d_amount d) (d_fee d)
                (Some (d_timestamp d)) in
  let tx := set_signature (d_signature d) tx in
  set_txId (d_txId d) tx.

End Transaction.

(** [JSON.stringify(transactions)] *)
Definition JSON_stringify (txs : list Transaction.t) : string :=
  "[" +:+ json_join (map Transaction.toJSON txs) +:+ "]".

(** ** Block.js *)

Module Block.

(** [merkleRoot] is [None] while the property is still undefined, which
    is the case when the constructor computes the first hash. *)
Record t := mk {
  index : Z;
  timestamp : Z;
  transactions : list Transaction.t;
  previousHash : string;
  nonce : Z;
  difficulty : nat;
  hash : string;
  merkleRoot : option string;
  miner : string;
  reward : Q
}.

Definition set_nonce (v : Z) (b : t) : t :=
  mk (index b) (timestamp b) (transactions b) (previousHash b) v
     (difficulty b) (hash b) (merkleRoot b) (miner b) (reward b).
Definition set_hash (v : string) (b : t) : t :=
  mk (index b) (timestamp b) (transactions b) (previousHash b) (nonce b)
     (difficulty b) v (merkleRoot b) (miner b) (reward b).
Definition set_merkleRoot (v : option string) (b : t) : t :=
  mk (index b) (timestamp b) (transactions b) (previousHash b) (nonce b)
     (difficulty b) (hash b) v (miner b) (reward b).
Definition set_miner (v : string) (b : t) : t :=
  mk (index b) (timestamp b) (transactions b) (previousHash b) (nonce b)
     (difficulty b) (hash b) (merkleRoot b) v (reward b).
Definition set_reward (v : Q) (b : t) : t :=
  mk (index b) (timestamp b) (transactions b) (previousHash b) (nonce b)
     (difficulty b) (hash b) (merkleRoot b) (miner b) v.

(** String concatenation turns an undefined property into the text
    [undefined]. *)
Definition merkle_text (m : option string) : string :=
  match m with
  | Some r => r
  | None => "undefined"
  end.

Definition calculateHash (b : t) : string :=
  sha256_hex (Z_toString (index b) +:+ previousHash b
              +:+ Z_toString (timestamp b)
              +:+ JSON_stringify (transactions b)
              +:+ Z_toString (nonce b) +:+ merkle_text (merkleRoot b)).

(** [tx.txId || tx.calculateHash()] *)
Definition leaf (tx : Transaction.t) : string :=
  if falsy_str (Transaction.txId tx) then Transaction.calculateHash tx
  else Transaction.txId tx.

(** One pass of the [for] loop: [right = hashes[i + 1] || left]. *)
Fixpoint merkle_level (hashes : list string) : list string :=
  match hashes with
  | [] => []
  | [lhs] => [sha256_hex (lhs +:+ lhs)]
  | lhs :: rhs :: rest =>
      sha256_hex (lhs +:+ (if falsy_str rhs then lhs else rhs))
      :: merkle_level rest
  end.

(** The [while (hashes.length > 1)] loop; every pass shortens the
    list, so [length hashes] passes are always enough. *)
Fixpoint merkle_loop (fuel : nat) (hashes : list string) : list string :=
  match fuel with
  | O => hashes
  | S f =>
      if (1 <? length hashes)%nat then merkle_loop f (merkle_level hashes)
      else hashes
  end.

Definition calculateMerkleRoot (b : t) : string :=
  match transactions b with
  | [] => sha256_hex ""
  | _ :: _ =>
      let hashes := map leaf (transactions b) in
      hd "" (merkle_loop (length hashes) hashes)
  end.

(** [new Block(index, transactions, timestamp, previousHash, nonce,
    difficulty)]: the statements of the constructor in their order. *)
Definition new (now : Z) (index : Z) (transactions : list Transaction.t)
    (timestamp : option Z) (previousHash : string) (nonce : Z)
    (difficulty : nat) : t :=
  let ts := match timestamp with
            | Some ts => if ts =? 0 then now else ts
            | None => now
            end in
  let this := mk index ts transactions previousHash nonce difficulty
                 "" None "" 0 in
  let this := set_hash (calculateHash this) this in
  let this := set_merkleRoot (Some (calculateMerkleRoot this)) this in
  this.

(** What mineBlock returns; the elapsed time and the hash rate are
    clock readings and are left out. *)
Record MiningStats := mkStats { stats_nonce : Z; stats_hash : string }.

(** The [while] loop of mineBlock, at most [fuel] iterations.  The
    nonce is counted exactly, as [this.nonce++] does below 2^53. *)
Fixpoint mine_loop (fuel : nat) (difficulty : nat) (b : t) : option t :=
  if negb (String.eqb (substring 0 difficulty (hash b))
                      (String_repeat "0" difficulty))
  then
    match fuel with
    | O => None
    | S f =>
        let b := set_nonce (nonce b + 1) b in
        let b := set_hash (calculateHash b) b in
        mine_loop f difficulty b
    end
  else Some b.

Definition mineBlock (fuel : nat) (difficulty : nat) (minerAddress : string)
    (b : t) : option (MiningStats * t) :=
  let b := set_miner minerAddress b in
  match mine_loop fuel difficulty b with
  | Some b' => Some (mkStats (nonce b') (hash b'), b')
  | None => None
  end.

(** [this.merkleRoot !== this.calculateMerkleRoot()] *)
Definition merkle_differs (stored : option string) (fresh : string) : bool :=
  match stored with
  | Some r => negb (String.eqb r fresh)
  | None => true
  end.

Definition isValid (b : t) (previousBlock : option t) : bool :=
  if negb (String.eqb (hash b) (calculateHash b)) then false
  else if match previousBlock with
          | Some p => negb (String.eqb (previousHash b) (hash p))
          | None => false
          end then false
  else if negb (String.prefix (String_repeat "0" (difficulty b)) (hash b))
  then false
  else if merkle_differs (merkleRoot b) (calculateMerkleRoot b) then false
  else forallb Transaction.isValid (transactions b).

(** The plain object toJSON returns and fromJSON reads.  The
    transactions of a block are Transaction objects, so each goes
    through its own toJSON; the entries fromJSON receives are plain
    objects, so each goes through Transaction.fromJSON. *)
Record data := mkData {
  d_index : Z;
  d_timestamp : Z;
  d_transactions : list Transaction.data;
  d_previousHash : string;
  d_nonce : Z;
  d_hash : string;
  d_merkleRoot : option string;
  d_difficulty : nat;
  d_miner : string;
  d_reward : Q
}.

Definition toJSON_object (b : t) : data :=
  mkData (index b) (timestamp b)
         (map Transaction.toJSON_object (transactions b))
         (previousHash b) (nonce b) (hash b) (merkleRoot b) (difficulty b)
         (miner b) (reward b).

(** [Block.fromJSON(data)]; [now_tx i] is the clock reading in the
    constructor of transaction [i], [now] the one in the constructor of
    the block. *)
Definition fromJSON (now_tx : nat → Z) (now : Z) (d : data) : t :=
  let transactions :=
    imap (λ i tx, Transaction.fromJSON (now_tx i) tx) (d_transactions d) in
  let block := new now (d_index d) transactions (Some (d_timestamp d))
                   (d_previousHash d) (d_nonce d) (d_difficulty d) in
  let block := set_hash (d_hash d) block in
  let block := set_merkleRoot (d_merkleRoot d) block in
  let block := set_miner (d_miner d) block in
  set_reward (d_reward d) block.

End Block.

(** ** Blockchain.js *)

Module GSCBlockchain.

Record t := mk {
  chain : list Block.t;
  difficulty : nat;
  mempool : list Transaction.t;
  balances : gmap string Q;
  miningReward : Q;
  isMining : bool;
  blockTimeTarget : Z;
  halvingInterval : Z;
  totalSupply : Z;
  currentSupply : Q;
  genesisAddress : string;
  genesisReward : Q
}.

Definition set_chain (v : list Block.t) (L : t) : t :=
  mk v (difficulty L) (mempool L) (balances L) (miningReward L) (isMining L)
     (blockTimeTarget L) (halvingInterval L) (totalSupply L)
     (currentSupply L) (genesisAddress L) (genesisReward L).
Definition set_mempool (v : list Transaction.t) (L : t) : t :=
  mk (chain L) (difficulty L) v (balances L) (miningReward L) (isMining L)
     (blockTimeTarget L) (halvingInterval L) (totalSupply L)
     (currentSupply L) (genesisAddress L) (genesisReward L).
Definition set_balances (v : gmap string Q) (L : t) : t :=
  mk (chain L) (difficulty L) (mempool L) v (miningReward L) (isMining L)
     (blockTimeTarget L) (halvingInterval L) (totalSupply L)
     (currentSupply L) (genesisAddress L) (genesisReward L).
Definition set_isMining (v : bool) (L : t) : t :=
  mk (chain L) (difficulty L) (mempool L) (balances L) (miningReward L) v
     (blockTimeTarget L) (halvingInterval L) (totalSupply L)
     (currentSupply L) (genesisAddress L) (genesisReward L).
Definition set_currentSupply (v : Q) (L : t) : t :=
  mk (chain L) (difficulty L) (mempool L) (balances L) (miningReward L)
     (isMining L) (blockTimeTarget L) (halvingInterval L) (totalSupply L)
     v (genesisAddress L) (genesisReward L).

(** [this.balances[k] || 0]: an absent entry and a zero entry both
    read as 0.  The table stands for the properties the object holds
    itself; under a key that is [inherited] the object answers the
    member of [Object.prototype] instead, which this table does not
    show, and statements about balances are made for the other keys. *)
Definition or_zero (v : option Q) : Q :=
  match v with
  | Some q => if Qeq_bool q 0 then 0%Q else q
  | None => 0%Q
  end.

Definition getBalance (L : t) (address : string) : Q :=
  or_zero (balances L !! address).

(** [if (!bal[k]) bal[k] = 0; bal[k] -= x] and its [+=] twin *)
Definition debit (k : string) (x : Q) (bal : gmap string Q) : gmap string Q :=
  <[k := (or_zero (bal !! k) - x)%Q]> bal.
Definition credit (k : string) (x : Q) (bal : gmap string Q) : gmap string Q :=
  <[k := (or_zero (bal !! k) + x)%Q]> bal.

(** [['COINBASE', 'GENESIS'].includes(sender)] *)
Definition is_system (s : string) : bool :=
  String.eqb s "COINBASE" || String.eqb s "GENESIS".

(** The body of the inner loop of updateBalances. *)
Definition apply_transaction (miner : string) (bal : gmap string Q)
    (tx : Transaction.t) : gmap string Q :=
  let bal :=
    if negb (is_system (Transaction.sender tx))
    then debit (Transaction.sender tx)
               (Transaction.amount tx + Transaction.fee tx)%Q bal
    else bal in
  let bal := credit (Transaction.receiver tx) (Transaction.amount tx) bal in
  if negb (String.eqb (Transaction.sender tx) "COINBASE")
     && negb (falsy_str miner)
  then credit miner (Transaction.fee tx) bal
  else bal.

Definition apply_block (bal : gmap string Q) (b : Block.t) : gmap string Q :=
  fold_left (apply_transaction (Block.miner b)) (Block.transactions b) bal.

Definition updateBalances (L : t) : t :=
  set_balances (fold_left apply_block (chain L) ∅) L.

(** [this.chain[this.chain.length - 1]], undefined on an empty chain *)
Definition getLatestBlock (L : t) : option Block.t := last (chain L).

Definition getCurrentReward (L : t) : Q :=
  let blockHeight := Z.of_nat (length (chain L)) - 1 in
  if blockHeight =? 0 then miningReward L
  else
    let halvings := (blockHeight - 1) / halvingInterval L in
    if halvings >=? 64 then 0%Q
    else (miningReward L / Qpower 2 halvings)%Q.

(** The sums are exact here; [Binary64.GSCBlockchain.isTransactionValid]
    below adds as the engine does. *)
Definition isTransactionValid (L : t) (transaction : Transaction.t) : bool :=
  if negb (Transaction.isValid transaction) then false
  else
    let senderTxs :=
      List.filter (fun tx => String.eqb (Transaction.sender tx)
                                        (Transaction.sender transaction))
                  (mempool L) in
    let totalSpending :=
      fold_left (fun sum tx => (sum + Transaction.amount tx
                                + Transaction.fee tx)%Q) senderTxs 0%Q in
    let senderBalance := getBalance L (Transaction.sender transaction) in
    Qle_bool (totalSpending + Transaction.amount transaction
              + Transaction.fee transaction)%Q senderBalance.

Record Result := mkResult { success : bool; message : string }.

Definition addTransactionToMempool (L : t) (transaction : Transaction.t)
    : Result * t :=
  if negb (isTransactionValid L transaction)
  then (mkResult false "Invalid transaction", L)
  else
    let senderBalance := getBalance L (Transaction.sender transaction) in
    let totalCost :=
      (Transaction.amount transaction + Transaction.fee transaction)%Q in
    if Qlt_bool senderBalance totalCost
    then (mkResult false
            ("Insufficient balance. Required: " +:+ Number_toString totalCost
             +:+ ", Available: " +:+ Number_toString senderBalance), L)
    else
      let exists_ :=
        existsb (fun tx => String.eqb (Transaction.txId tx)
                                      (Transaction.txId transaction))
                (mempool L) in
      if exists_
      then (mkResult false "Transaction already in mempool", L)
      else (mkResult true "Transaction added to mempool",
            set_mempool (mempool L ++ [transaction]) L).

Definition addBlock (L : t) (newBlock : Block.t) : bool * t :=
  let previousBlock := getLatestBlock L in
  if Block.isValid newBlock previousBlock
  then (true, updateBalances (set_chain (chain L ++ [newBlock]) L))
  else (false, L).

(** [mempool.findIndex(p)], with [None] for -1 *)
Fixpoint findIndex {A : Type} (p : A → bool) (l : list A) : option nat :=
  match l with
  | [] => None
  | x :: rest => if p x then Some O else S <$> findIndex p rest
  end.

(** The body of the [forEach] that evicts one mined transaction. *)
Definition evict (pool : list Transaction.t) (tx : Transaction.t)
    : list Transaction.t :=
  match findIndex (fun mempoolTx =>
                     String.eqb (Transaction.txId mempoolTx)
                                (Transaction.txId tx)) pool with
  | Some index => delete index pool
  | None => pool
  end.

(** How a call that contains the mining loop can end. *)
Inductive outcome (A : Type) : Type :=
| Returned (value : A) (L : t)
| Threw (L : t)
| OutOfFuel.
Arguments Returned {A} value L.
Arguments Threw {A} L.
Arguments OutOfFuel {A}.

(** [now_tx] and [now_block] are the two readings of [Date.now()], one
    in the constructor of the coinbase transaction and one for the
    block; the progress callback only observes.  A null return value is
    [None]; saveBlockchain writes a file and leaves the ledger alone. *)
Definition minePendingTransactions (fuel : nat) (now_tx now_block : Z) (L : t)
    (minerAddress : string) (forceMine : bool) : outcome (option Block.t) :=
  if (length (mempool L) =? 0)%nat && negb forceMine then Returned None L
  else if isMining L then Returned None L
  else
    let L := set_isMining true L in
    let selectedTransactions := firstn 10 (mempool L) in
    let currentReward := getCurrentReward L in
    let totalFees :=
      fold_left (fun sum tx => (sum + Transaction.fee tx)%Q)
                selectedTransactions 0%Q in
    let coinbaseTransaction :=
      Transaction.new now_tx "COINBASE" minerAddress
                      (currentReward + totalFees)%Q 0 None in
    match getLatestBlock L with
    | None => Threw (set_isMining false L)
    | Some latest =>
        let newBlock :=
          Block.new now_block (Z.of_nat (length (chain L)))
                    (coinbaseTransaction :: selectedTransactions)
                    (Some now_block) (Block.hash latest) 0 (difficulty L) in
        let newBlock := Block.set_reward currentReward newBlock in
        let newBlock := Block.set_miner minerAddress newBlock in
        match Block.mineBlock fuel (difficulty L) minerAddress newBlock with
        | None => OutOfFuel
        | Some (miningStats, newBlock) =>
            let (added, L) := addBlock L newBlock in
            if added
            then
              let L := set_mempool
                         (fold_left evict selectedTransactions (mempool L)) L in
              Returned (Some newBlock) (set_isMining false L)
            else Returned None (set_isMining false L)
        end
    end.

(** The [for] loop of isChainValid from block [i] on, [prev] being
    block [i - 1]. *)
Fixpoint isChainValid_from (prev : Block.t) (rest : list Block.t) : bool :=
  match rest with
  | [] => true
  | b :: rest' => if negb (Block.isValid b (Some prev)) then false
                  else isChainValid_from b rest'
  end.

Definition isChainValid (L : t) : bool :=
  match chain L with
  | [] => true
  | b0 :: rest => isChainValid_from b0 rest
  end.

(** The field values the constructor assigns before it creates the
    genesis block. *)
Definition initial : t :=
  mk [] 5 [] ∅ 50 false 120 1051200 21750000000000 0
     "GSC1705641e65321ef23ac5fb3d470f39627" 255.

(** The clock is not read here: both timestamps are given. *)
Definition createGenesisBlock (fuel : nat) (L : t) : option t :=
  let genesisTransaction :=
    Transaction.new 0 "GENESIS" (genesisAddress L) (genesisReward L) 0
                    (Some 1704067200000) in
  let genesisBlock :=
    Block.new 0 0 [genesisTransaction] (Some 1704067200000)
              (String_repeat "0" 64) 0 1 in
  match Block.mineBlock fuel 1 "GENESIS" genesisBlock with
  | None => None
  | Some (_, genesisBlock) =>
      let L := set_chain (chain L ++ [genesisBlock]) L in
      let L := updateBalances L in
      Some (set_currentSupply (genesisReward L) L)
  end.

(** [new GSCBlockchain()] when no saved chain is found on disk. *)
Definition constructor (fuel : nat) : option t :=
  createGenesisBlock fuel initial.

(** [array.slice(start)] *)
Definition Array_slice_from {A : Type} (start : Z) (l : list A) : list A :=
  let len := Z.of_nat (length l) in
  let k := if start <? 0 then Z.max (len + start) 0 else Z.min start len in
  skipn (Z.to_nat k) l.

(** [this.chain.slice(-limit).reverse()]; reverse works on the copy. *)
Definition getRecentBlocks (L : t) (limit : Z) : list Block.t :=
  rev (Array_slice_from (- limit) (chain L)).

(** [this.chain[index] || null] for an integral index *)
Definition getBlockByIndex (L : t) (index : Z) : option Block.t :=
  if index <? 0 then None else chain L !! Z.to_nat index.

(** The two nested loops of getTransactionById over the chain. *)
Fixpoint find_in_chain (txId : string) (blocks : list Block.t)
  : option (Transaction.t * Z) :=
  match blocks with
  | [] => None
  | block :: rest =>
      match List.find (λ tx, String.eqb (Transaction.txId tx) txId)
                      (Block.transactions block) with
      | Some tx => Some (tx, Block.index block)
      | None => find_in_chain txId rest
      end
  end.

(** The answer is the transaction and its [blockIndex], -1 for a
    transaction of the mempool, or [None] for null. *)
Definition getTransactionById (L : t) (txId : string)
  : option (Transaction.t * Z) :=
  match find_in_chain txId (chain L) with
  | Some found => Some found
  | None =>
      match List.find (λ tx, String.eqb (Transaction.txId tx) txId)
                      (mempool L) with
      | Some mempoolTx => Some (mempoolTx, -1)
      | None => None
      end
  end.

Record Stats := mkStats {
  stat_totalBlocks : nat;
  stat_mempoolSize : nat;
  stat_totalSupply : Z;
  stat_currentSupply : Q;
  stat_difficulty : nat;
  stat_blockTimeTarget : Z;
  stat_halvingInterval : Z;
  stat_currentReward : Q;
  stat_isChainValid : bool
}.

Definition getBlockchainStats (L : t) : Stats :=
  mkStats (length (chain L)) (length (mempool L)) (totalSupply L)
          (currentSupply L) (difficulty L) (blockTimeTarget L)
          (halvingInterval L) (getCurrentReward L) (isChainValid L).

(** The object saveBlockchain writes and loadBlockchain reads back;
    a property the file does not carry is [None]. *)
Record saved := mkSaved {
  s_chain : option (list Block.data);
  s_mempool : option (list Transaction.data);
  s_balances : option (gmap string Q);
  s_currentSupply : option Q
}.

Definition saveBlockchain (L : t) : saved :=
  mkSaved (Some (map Block.toJSON_object (chain L)))
          (Some (map Transaction.toJSON_object (mempool L)))
          (Some (balances L))
          (Some (currentSupply L)).

(** [loadBlockchain()]; [file] is the parsed content of the file, [None]
    when there is no file or it cannot be read or parsed.  [now] gives
    the clock reading for every constructor call made on the way. *)
Definition loadBlockchain (now : Z) (file : option saved) (L : t) : t :=
  match file with
  | None => L
  | Some data =>
      match s_chain data with
      | None => L
      | Some blocks =>
          if (1 <? length blocks)%nat
          then
            let L := set_chain (map (Block.fromJSON (λ _, now) now) blocks) L in
            let L := set_mempool
                       (map (Transaction.fromJSON now)
                            (default [] (s_mempool data))) L in
            let L := set_balances (default ∅ (s_balances data)) L in
            set_currentSupply
              (match s_currentSupply data with
               | Some q => if Qeq_bool q 0 then genesisReward L else q
               | None => genesisReward L
               end) L
          else L
      end
  end.

End GSCBlockchain.

(** ** WalletManager.js *)

Module WalletManager.

(** ['GSC' + sha256(privateKey).substring(0, 32)] *)
Definition generateAddress (privateKey : string) : string :=
  "GSC" +:+ substring 0 32 (sha256_hex privateKey).

(** The private key importWallet derives from a mnemonic. *)
Definition importedPrivateKey (mnemonic : string) : string :=
  sha256_hex mnemonic.

End WalletManager.

(** ** Numbers as the engine holds them: IEEE 754 binary64 *)

(** Where a rounding, a NaN or an inherited property decides what the
    code answers, the methods concerned are embedded a second time with
    numbers as binary64 values, the primitive [float] of the kernel.
    The same source lines are followed; only the type of numbers
    differs from the modules above. *)
Module Binary64.

(** [s * 10^t] against [c * 2^q], for [s] and [c] that are not
    negative. *)
Definition decimal_compare (s t c q : Z) : comparison :=
  (s * 10 ^ Z.max t 0 * 2 ^ Z.max (- q) 0
   ?= c * 2 ^ Z.max q 0 * 10 ^ Z.max (- t) 0).

(** Whether the decimal [s * 10^t] denotes the number [m * 2^e]: it
    lies nearer to it than to either neighbour, a tie counting when [m]
    is even.  In units of [2^(e-2)] the number is [4m] and the
    midpoints to its neighbours are [4m+2] and [4m-2], the lower one
    being [4m-1] where [m * 2^e] is a power of two with a denser
    neighbour below. *)
Definition denotes (m e s t : Z) : bool :=
  let lower :=
    if (m =? 2 ^ 52) && (-1074 <? e) then 4 * m - 1 else 4 * m - 2 in
  let upper := 4 * m + 2 in
  match decimal_compare s t lower (e - 2) with
  | Gt => true
  | Eq => Z.even m
  | Lt => false
  end
  && match decimal_compare s t upper (e - 2) with
     | Lt => true
     | Eq => Z.even m
     | Gt => false
     end.

(** The least [n], from [n] on, with [m * 2^e < 10^n]. *)
Fixpoint magnitude (fuel : nat) (m e n : Z) : Z :=
  match fuel with
  | O => n
  | S f =>
      match decimal_compare 1 n m e with
      | Gt => n
      | _ => magnitude f m e (n + 1)
      end
  end.

(** Of the two decimals of [k] digits around [m * 2^e], the one that
    denotes it; the nearer one when both do, the even one on a tie. *)
Definition candidate (m e n k : Z) : option Z :=
  let t := n - k in
  let s := (m * 2 ^ Z.max e 0 * 10 ^ Z.max (- t) 0)
           / (2 ^ Z.max (- e) 0 * 10 ^ Z.max t 0) in
  match denotes m e s t, denotes m e (s + 1) t with
  | true, true =>
      match decimal_compare (2 * s + 1) t (8 * m) (e - 2) with
      | Gt => Some s
      | Lt => Some (s + 1)
      | Eq => Some (if Z.even s then s else s + 1)
      end
  | true, false => Some s
  | false, true => Some (s + 1)
  | false, false => None
  end.

Fixpoint shortest (fuel : nat) (m e n k : Z) : Z * Z :=
  match fuel with
  | O => (0, k)
  | S f =>
      match candidate m e n k with
      | Some s => (s, k)
      | None => shortest f m e n (k + 1)
      end
  end.

(** Number::toString of the positive finite number [m * 2^e]: the
    digits of the shortest decimal that denotes it, written out in full
    when the decimal point falls within 21 digits before or 6 zeros
    after them, and with an exponent otherwise. *)
Definition positive_toString (m e : Z) : string :=
  let n0 := magnitude 6 m e ((Z.log2 m + e) * 30103 / 100000 - 1) in
  let '(s, k) := shortest 17 m e n0 1 in
  let '(digits, n) :=
    if s =? 10 ^ k then ("1", n0 + 1) else (decimal s, n0) in
  let k := Z.of_nat (String.length digits) in
  if (k <=? n) && (n <=? 21)
  then digits +:+ String_repeat "0" (Z.to_nat (n - k))
  else if (0 <? n) && (n <=? 21)
  then substring 0 (Z.to_nat n) digits +:+ "."
       +:+ substring (Z.to_nat n) (Z.to_nat (k - n)) digits
  else if (-6 <? n) && (n <=? 0)
  then "0." +:+ String_repeat "0" (Z.to_nat (- n)) +:+ digits
  else
    let exponent :=
      (if n - 1 <? 0 then "-" else "+") +:+ decimal (Z.abs (n - 1)) in
    if k =? 1 then digits +:+ "e" +:+ exponent
    else substring 0 1 digits +:+ "."
         +:+ substring 1 (Z.to_nat (k - 1)) digits +:+ "e" +:+ exponent.

(** Number::toString: [String(x)], and [x] joined to a string. *)
Definition Number_toString (x : float) : string :=
  match Prim2SF x with
  | S754_nan => "NaN"
  | S754_zero _ => "0"
  | S754_infinity sign => if sign then "-Infinity" else "Infinity"
  | S754_finite sign m e =>
      (if sign then "-" else "") +:+ positive_toString (Z.pos m) e
  end.

(** [parseFloat(x)] for a number [x] reads back the text [String(x)]:
    that is [x], and 0 for -0. *)
Definition parseFloat (x : float) : float :=
  if PrimFloat.eqb x PrimFloat.zero then PrimFloat.zero else x.

(** The rational that a finite number is, 0 for the others. *)
Definition exact (x : float) : Q :=
  match Prim2SF x with
  | S754_finite sign m e =>
      ((if sign then -1 else 1) * inject_Z (Z.pos m) * Qpower 2 e)%Q
  | _ => 0%Q
  end.

(** *** Transaction.js *)

Module Transaction.

Record t := mk {
  sender : string;
  receiver : string;
  amount : float;
  fee : float;
  timestamp : Z;
  signature : string;
  txId : string
}.

Definition set_txId (v : string) (tx : t) : t :=
  mk (sender tx) (receiver tx) (amount tx) (fee tx) (timestamp tx)
     (signature tx) v.

Definition set_signature (v : string) (tx : t) : t :=
  mk (sender tx) (receiver tx) (amount tx) (fee tx) (timestamp tx)
     v (txId tx).

Definition calculateHash (tx : t) : string :=
  sha256_hex (sender tx +:+ receiver tx +:+ Number_toString (amount tx)
              +:+ Number_toString (fee tx) +:+ Z_toString (timestamp tx)).

(** [new Transaction(sender, receiver, amount, fee, timestamp)] with
    numbers for amount and fee, as every caller passes them (the
    submission route passes [parseFloat(amount)], which is NaN for a
    text that is no number). *)
Definition new (now : Z) (sender receiver : string) (amount fee : float)
    (timestamp : option Z) : t :=
  let ts := match timestamp with
            | Some ts => if ts =? 0 then now else ts
            | None => now
            end in
  let this := mk sender receiver (parseFloat amount) (parseFloat fee) ts
                 "" "" in
  set_txId (calculateHash this) this.

(** [amount <= 0] and [fee < 0] are the comparisons of binary64: both
    are false of NaN. *)
Definition isValid (tx : t) : bool :=
  if falsy_str (sender tx) || falsy_str (receiver tx) then false
  else if PrimFloat.leb (amount tx) PrimFloat.zero then false
  else if PrimFloat.ltb (fee tx) PrimFloat.zero then false
  else if String.eqb (sender tx) "COINBASE" || String.eqb (sender tx) "GENESIS"
  then true
  else String.eqb (txId tx) (calculateHash tx).

Definition signTransaction (privateKey : string) (tx : t) : t :=
  set_signature (sha256_hex (calculateHash tx +:+ privateKey)) tx.

End Transaction.

(** *** Blockchain.js: the balance table and admission to the mempool *)

(** What [this.balances[k]] can answer: a number, or the function or
    object that the table inherits under the name [k].  The latter is
    truthy and converts to NaN wherever a number is wanted. *)
Inductive value :=
| Num (x : float)
| Inherited (name : string).

(** [!x] for a number: true of 0, -0 and NaN. *)
Definition falsy (x : float) : bool :=
  PrimFloat.eqb x PrimFloat.zero || PrimFloat.is_nan x.

(** [x <= v] and [v < x] for a number [x]. *)
Definition leb_value (x : float) (v : value) : bool :=
  match v with
  | Num y => PrimFloat.leb x y
  | Inherited _ => false
  end.
Definition value_ltb (v : value) (x : float) : bool :=
  match v with
  | Num y => PrimFloat.ltb y x
  | Inherited _ => false
  end.

Module GSCBlockchain.

(** The two fields of the ledger that admission reads and writes.  The
    table holds the numeric properties of [this.balances] itself. *)
Record t := mk {
  mempool : list Transaction.t;
  balances : gmap string float
}.

Definition set_mempool (v : list Transaction.t) (L : t) : t :=
  mk v (balances L).

(** [this.balances[address] || 0] *)
Definition getBalance (L : t) (address : string) : value :=
  match balances L !! address with
  | Some x => if falsy x then Num PrimFloat.zero else Num x
  | None => if inherited address then Inherited address
            else Num PrimFloat.zero
  end.

Definition isTransactionValid (L : t) (transaction : Transaction.t) : bool :=
  if negb (Transaction.isValid transaction) then false
  else
    let senderTxs :=
      List.filter (fun tx => String.eqb (Transaction.sender tx)
                                        (Transaction.sender transaction))
                  (mempool L) in
    let totalSpending :=
      fold_left (fun sum tx =>
                   PrimFloat.add (PrimFloat.add sum (Transaction.amount tx))
                                 (Transaction.fee tx))
                senderTxs PrimFloat.zero in
    let senderBalance := getBalance L (Transaction.sender transaction) in
    leb_value
      (PrimFloat.add (PrimFloat.add totalSpending
                                    (Transaction.amount transaction))
                     (Transaction.fee transaction))
      senderBalance.

Record Result := mkResult { success : bool; message : string }.

(** The text of the second refusal prints the balance, which is a
    number whenever that comparison holds. *)
Definition addTransactionToMempool (L : t) (transaction : Transaction.t)
    : Result * t :=
  if negb (isTransactionValid L transaction)
  then (mkResult false "Invalid transaction", L)
  else
    let senderBalance := getBalance L (Transaction.sender transaction) in
    let totalCost :=
      PrimFloat.add (Transaction.amount transaction)
                    (Transaction.fee transaction) in
    let duplicate_check :=
      let exists_ :=
        existsb (fun tx => String.eqb (Transaction.txId tx)
                                      (Transaction.txId transaction))
                (mempool L) in
      if exists_
      then (mkResult false "Transaction already in mempool", L)
      else (mkResult true "Transaction added to mempool",
            set_mempool (mempool L ++ [transaction]) L) in
    match senderBalance with
    | Num available =>
        if PrimFloat.ltb available totalCost
        then (mkResult false
                ("Insufficient balance. Required: "
                 +:+ Number_toString totalCost
                 +:+ ", Available: " +:+ Number_toString available), L)
        else duplicate_check
    | Inherited _ => duplicate_check
    end.

End GSCBlockchain.

End Binary64.

(** ** The Merkle root as the specification words it *)

(** The computation in the words of the specification: adjacent hashes
    are concatenated and hashed, the last one with itself when it has no
    neighbour, until one hash is left. *)
Module MerkleSpec.

Fixpoint pair_level (hs : list string) : list string :=
  match hs with
  | [] => []
  | [h] => [sha256_hex (h +:+ h)]
  | l :: r :: rest => sha256_hex (l +:+ r) :: pair_level rest
  end.

Inductive reduces : list string → string → Prop :=
| reduces_single (h : string) : reduces [h] h
| reduces_level (hs : list string) (root : string) :
    (1 < length hs)%nat → reduces (pair_level hs) root → reduces hs root.

End MerkleSpec.

(** ** Proof of work, as the specification words it *)

(** [h] starts with at least [d] characters [0]. *)
Definition leading_zeros (d : nat) (h : string) : Prop :=
  ∃ rest, h = String_repeat "0" d +:+ rest.

(** ** Inputs of the worked examples *)

Definition genesis_address : string := "GSC1705641e65321ef23ac5fb3d470f39627".
Definition addressX : string := "GSC7c1f5a2e9b3d4f60718293a4b5c6d7e8f".
Definition addressM : string := "GSC0a1b2c3d4e5f60718293a4b5c6d7e8f90".

(** The block createGenesisBlock constructs, before it is mined. *)
Definition genesis_candidate : Block.t :=
  Block.new 0 0
    [Transaction.new 0 "GENESIS" genesis_address 255 0 (Some 1704067200000)]
    (Some 1704067200000) (String_repeat "0" 64) 0 1.

Definition genesis_hash : string :=
  "0eaa141dcca8c70ae1db1349e0d5183dcb664180e7b4e43ce2a190b09c865719".

(** An empty block on top of genesis, constructed at a moment at which
    the constructor's first hash happens to start with five zeros. *)
Definition lucky_candidate : Block.t :=
  Block.new 0 1 [] (Some 1704067775672) genesis_hash 0 5.

(** A ledger configured as the constructor does, holding a chain of
    [n] blocks. *)
Definition ledger_of_length (n : nat) : GSCBlockchain.t :=
  GSCBlockchain.set_chain (repeat genesis_candidate n) GSCBlockchain.initial.

(** The ledger [new GSCBlockchain()] builds; mining genesis takes 44
    iterations. *)
Definition fresh : GSCBlockchain.t :=
  Eval vm_compute in
    default GSCBlockchain.initial (GSCBlockchain.constructor 64).

(** Genesis address pays 10 to [addressX] with fee 0.1. *)
Definition payment : Transaction.t :=
  Transaction.new 1704067260000 genesis_address addressX 10 (1 # 10) None.

(** Two payments of the genesis address, each affordable on its own with
    the 255 coins it holds, not both. *)
Definition large_payment : Transaction.t :=
  Transaction.new 1704067260001 genesis_address addressX 200 (1 # 10) None.
Definition second_payment : Transaction.t :=
  Transaction.new 1704067260002 genesis_address addressM 100 (1 # 10) None.

(** A clock reading at which the block mined over [payment] meets
    difficulty 5 at nonce 1, and one at which the constructor's first
    hash of that block already does. *)
Definition mining_time : Z := 1704068277815.
Definition unlucky_time : Z := 1704068620230.

(** The candidate block minePendingTransactions assembles at
    [mining_time] over [payment] for miner [addressM], and that block
    once mined. *)
Definition paid_candidate : Block.t :=
  Block.set_miner addressM
    (Block.set_reward 50
       (Block.new mining_time 1
          [Transaction.new mining_time "COINBASE" addressM (50 + (1 # 10)) 0 None;
           payment]
          (Some mining_time) genesis_hash 0 5)).

Definition paid_block : Block.t :=
  Eval vm_compute in
    match Block.mineBlock 1 5 addressM paid_candidate with
    | Some (_, b) => b
    | None => paid_candidate
    end.

(** The genesis ledger after [payment] was submitted, and after the
    block over it was mined at [mining_time] for [addressM]. *)
Definition submitted : GSCBlockchain.t :=
  Eval vm_compute in (GSCBlockchain.addTransactionToMempool fresh payment).2.

Definition settled : GSCBlockchain.t :=
  Eval vm_compute in
    match GSCBlockchain.minePendingTransactions 1 mining_time mining_time
            submitted addressM false with
    | GSCBlockchain.Returned _ L => L
    | _ => submitted
    end.

(** [payment] as Transaction.fromJSON reads it back from data whose
    txId is the empty text, and a block that holds it alone. *)
Definition unnamed_payment : Transaction.t :=
  Transaction.fromJSON 0
    (Transaction.mkData genesis_address addressX 10 (1 # 10) 1704067260000
                        "" "").

Definition unnamed_block : Block.t :=
  Block.new 0 1 [unnamed_payment] (Some mining_time) genesis_hash 0 5.

(** What admission sees of a new ledger: nothing pending, and the
    table that createGenesisBlock leaves, 255 for the genesis address
    and 0 for GENESIS, the miner named in the genesis block. *)
Definition genesis_balances : gmap string float :=
  <[ "GENESIS" := 0%float ]> {[ genesis_address := 255%float ]}.

Definition opened : Binary64.GSCBlockchain.t :=
  Binary64.GSCBlockchain.mk [] genesis_balances.

(** A payment whose amount is no number, as the submission route
    builds it when the amount of the request is the text [abc], and
    one whose fee is no number. *)
Definition nan_payment : Binary64.Transaction.t :=
  Binary64.Transaction.new 1704067260000 genesis_address addressX
    PrimFloat.nan 0.1%float None.

Definition nan_fee_payment : Binary64.Transaction.t :=
  Binary64.Transaction.new 1704067260000 genesis_address addressX
    10%float PrimFloat.nan None.

(** A payment of the whole balance of the genesis address, and one of
    1e-14 after it, both free of fee. *)
Definition whole_payment : Binary64.Transaction.t :=
  Binary64.Transaction.new 1704067260000 genesis_address addressX
    255%float 0%float None.

Definition dust_payment : Binary64.Transaction.t :=
  Binary64.Transaction.new 1704067320000 genesis_address addressX
    1e-14%float 0%float None.

(** [payment], [large_payment] and [second_payment] with binary64
    amounts. *)
Definition payment64 : Binary64.Transaction.t :=
  Binary64.Transaction.new 1704067260000 genesis_address addressX
    10%float 0.1%float None.

Definition large_payment64 : Binary64.Transaction.t :=
  Binary64.Transaction.new 1704067260001 genesis_address addressX
    200%float 0.1%float None.

Definition second_payment64 : Binary64.Transaction.t :=
  Binary64.Transaction.new 1704067260002 genesis_address addressM
    100%float 0.1%float None.

(** [opened] with [payment64] pending, and two further payments of the
    genesis address, of 250 and of 10 with fee 0.1 each. *)
Definition opened_with_payment : Binary64.GSCBlockchain.t :=
  Binary64.GSCBlockchain.mk [payment64] genesis_balances.

Definition payment_of_250 : Binary64.Transaction.t :=
  Binary64.Transaction.new 1704067320000 genesis_address addressX
    250%float 0.1%float None.

Definition later_payment64 : Binary64.Transaction.t :=
  Binary64.Transaction.new 1704067380000 genesis_address addressX
    10%float 0.1%float None.

(** The cost the admission check charges for a transaction, and the sum
    of the costs of the pending transactions of one sender. *)
Definition cost (tx : Transaction.t) : Q :=
  (Transaction.amount tx + Transaction.fee tx)%Q.

Fixpoint pending_cost (sender : string) (pool : list Transaction.t) : Q :=
  match pool with
  | [] => 0%Q
  | tx :: rest =>
      if String.eqb (Transaction.sender tx) sender
      then (cost tx + pending_cost sender rest)%Q
      else pending_cost sender rest
  end.

(** ** Balances in closed form *)




(** ** Admission in binary64 *)

(** [amount + fee] as the code adds it. *)
Definition rounded_cost (tx : Binary64.Transaction.t) : float :=
  PrimFloat.add (Binary64.Transaction.amount tx) (Binary64.Transaction.fee tx).

(** The [reduce] of isTransactionValid: what [sender] has pending in
    [pool], added up in queue order from 0, amount before fee. *)
Definition rounded_pending (sender : string)
    (pool : list Binary64.Transaction.t) : float :=
  fold_left
    (λ sum tx,
       PrimFloat.add (PrimFloat.add sum (Binary64.Transaction.amount tx))
                     (Binary64.Transaction.fee tx))
    (List.filter (λ tx, String.eqb (Binary64.Transaction.sender tx) sender)
                 pool)
    PrimFloat.zero.

(** Every pending transaction is valid, and what its sender has
    pending, added up as the code adds it, is within the sender's
    balance. *)
Definition covered (L : Binary64.GSCBlockchain.t) : Prop :=
  Forall
    (λ tx,
       Binary64.Transaction.isValid tx = true
       ∧ Binary64.leb_value
           (rounded_pending (Binary64.Transaction.sender tx)
                            (Binary64.GSCBlockchain.mempool L))
           (Binary64.GSCBlockchain.getBalance
              L (Binary64.Transaction.sender tx)) = true)
    (Binary64.GSCBlockchain.mempool L).

(** ** Block numbering *)

(** Every block of the chain carries its position as index. *)
Definition indexed (L : GSCBlockchain.t) : Prop :=
  ∀ (i : nat) b, GSCBlockchain.chain L !! i = Some b →
                 Block.index b = Z.of_nat i.

(** ** Hexadecimal text *)

Definition is_hex_char (c : ascii) : bool :=
  existsb (Ascii.eqb c) (list_ascii_of_string "0123456789abcdef").

Fixpoint all_hex (s : string) : bool :=
  match s with
  | EmptyString => true
  | String c s' => is_hex_char c && all_hex s'
  end.

(** * Properties *)

(** ** The hash function *)

Example sha256_empty :
  sha256_hex "" = "e3b0c44298fc1c149afbf4c8996fb92427ae41e4649b934ca495991b7852b855".
Proof. vm_compute. reflexivity. Qed.

Example sha256_abc :
  sha256_hex "abc" = "ba7816bf8f01cfea414140de5dae2223b00361a396177a9cb410ff61f20015ad".
Proof. vm_compute. reflexivity. Qed.

Example sha256_two_blocks :
  sha256_hex "abcdbcdecdefdefgefghfghighijhijkijkljklmklmnlmnomnopnopq"
  = "248d6a61d20638b8e5c026930c3e6039a33ce45964ff2167f6ecedd419db06c1".
Proof. vm_compute. reflexivity. Qed.

(** A digest always has 64 characters, whatever the message. *)
Lemma sha256_hex_length (s : string) : String.length (sha256_hex s) = 64%nat.
Proof.
  unfold sha256_hex, SHA256.hex, SHA256.hex_word.
  cbv beta iota zeta delta [String.length]. reflexivity.
Qed.

Lemma sha256_hex_truthy (s : string) : falsy_str (sha256_hex s) = false.
Proof.
  unfold falsy_str. apply String.eqb_neq. intros E.
  pose proof (sha256_hex_length s) as Hlen. rewrite E in Hlen. discriminate.
Qed.

Lemma falsy_str_spec (s : string) : falsy_str s = true ↔ s = "".
Proof. unfold falsy_str. apply String.eqb_eq. Qed.

Lemma falsy_str_false (s : string) : falsy_str s = false ↔ s ≠ "".
Proof. unfold falsy_str. apply String.eqb_neq. Qed.

(** ** Numbers *)

Lemma Qlt_bool_iff (x y : Q) : Qlt_bool x y = true ↔ (x < y)%Q.
Proof. unfold Qlt_bool, Qlt. apply Z.ltb_lt. Qed.

Lemma Qle_bool_false (x y : Q) : Qle_bool x y = false ↔ (y < x)%Q.
Proof.
  rewrite <- not_true_iff_false, Qle_bool_iff. split.
  - apply Qnot_le_lt.
  - apply Qlt_not_le.
Qed.

Lemma Qlt_bool_false (x y : Q) : Qlt_bool x y = false ↔ (y <= x)%Q.
Proof.
  rewrite <- not_true_iff_false, Qlt_bool_iff. split.
  - apply Qnot_lt_le.
  - apply Qle_not_lt.
Qed.

(** ** Binary64 numbers *)

(** Number::toString on some amounts: short decimals, a rounded sum,
    the bounds of the plain layout, the extremes of the format. *)
Example Number_toString_examples :
  map Binary64.Number_toString
    [ 255%float; 0.1%float; 50.1%float; PrimFloat.add 0.1%float 0.2%float;
      PrimFloat.sub (PrimFloat.sub 0.5%float 0.4%float) 0.1%float;
      1e-14%float; 0.000001%float; 1e-7%float; 123456789012345680000%float;
      1e21%float; 1e23%float; 5e-324%float; 1.7976931348623157e308%float;
      PrimFloat.neg_zero; PrimFloat.nan; PrimFloat.neg_infinity ]
  = [ "255"; "0.1"; "50.1"; "0.30000000000000004";
      "-2.7755575615628914e-17";
      "1e-14"; "0.000001"; "1e-7"; "123456789012345680000";
      "1e+21"; "1e+23"; "5e-324"; "1.7976931348623157e+308";
      "0"; "NaN"; "-Infinity" ].
Proof. vm_compute. reflexivity. Qed.

Example parseFloat_examples :
  Binary64.parseFloat PrimFloat.neg_zero = PrimFloat.zero
  ∧ Binary64.parseFloat PrimFloat.nan = PrimFloat.nan
  ∧ Binary64.parseFloat 0.1%float = 0.1%float.
Proof. repeat split; vm_compute; reflexivity. Qed.

Lemma SFcompare_antisym (x y : spec_float) (c : comparison) :
  SFcompare x y = Some c → SFcompare y x = Some (CompOpp c).
Proof.
  destruct x as [sx|sx| |sx mx ex], y as [sy|sy| |sy my ey]; cbn;
    try discriminate;
    try (destruct sx); try (destruct sy); intros [= <-]; try reflexivity;
    rewrite (Z.compare_antisym ex ey);
    destruct (ex ?= ey); cbn; try reflexivity;
    pose proof (Pos.compare_cont_antisym mx my Eq) as A; cbn in A;
    rewrite <- A; destruct (Pos.compare_cont Eq mx my); reflexivity.
Qed.

Lemma SFcompare_refl (x : spec_float) :
  x ≠ S754_nan → SFcompare x x = Some Eq.
Proof.
  destruct x as [s|s| |s m e]; cbn; intros H; try congruence;
    try (destruct s; reflexivity).
  rewrite Z.compare_refl, Pos.compare_cont_refl. destruct s; reflexivity.
Qed.

(** [x <= y] excludes [y < x]. *)
Lemma leb_not_ltb (x y : float) :
  PrimFloat.leb x y = true → PrimFloat.ltb y x = false.
Proof.
  rewrite FloatAxioms.leb_spec, FloatAxioms.ltb_spec. unfold SFleb, SFltb.
  destruct (SFcompare (Prim2SF x) (Prim2SF y)) as [c|] eqn:E; [| discriminate].
  rewrite (SFcompare_antisym _ _ _ E). destruct c; cbn; congruence.
Qed.

Lemma Prim2SF_zero : Prim2SF PrimFloat.zero = S754_zero false.
Proof. reflexivity. Qed.

Lemma is_nan_Prim2SF (x : float) :
  PrimFloat.is_nan x = true ↔ Prim2SF x = S754_nan.
Proof.
  unfold PrimFloat.is_nan. rewrite FloatAxioms.eqb_spec. unfold SFeqb.
  destruct (Prim2SF x) as [s|s| |s m e] eqn:E.
  - rewrite SFcompare_refl by discriminate. cbn. split; discriminate.
  - rewrite SFcompare_refl by discriminate. cbn. split; discriminate.
  - cbn. tauto.
  - rewrite SFcompare_refl by discriminate. cbn. split; discriminate.
Qed.

(** [x <= 0] fails exactly when [x] is positive or no number at all. *)
Lemma not_leb_zero (x : float) :
  PrimFloat.leb x PrimFloat.zero = false
  ↔ PrimFloat.ltb PrimFloat.zero x = true ∨ PrimFloat.is_nan x = true.
Proof.
  rewrite is_nan_Prim2SF, FloatAxioms.leb_spec, FloatAxioms.ltb_spec, Prim2SF_zero.
  unfold SFleb, SFltb.
  destruct (Prim2SF x) as [[]|[]| |[] m e]; cbn;
    intuition (discriminate || congruence).
Qed.

(** [x < 0] fails exactly when [x] is at least 0 or no number at all. *)
Lemma not_ltb_zero (x : float) :
  PrimFloat.ltb x PrimFloat.zero = false
  ↔ PrimFloat.leb PrimFloat.zero x = true ∨ PrimFloat.is_nan x = true.
Proof.
  rewrite is_nan_Prim2SF, FloatAxioms.leb_spec, FloatAxioms.ltb_spec, Prim2SF_zero.
  unfold SFleb, SFltb.
  destruct (Prim2SF x) as [[]|[]| |[] m e]; cbn;
    intuition (discriminate || congruence).
Qed.

(** Adding to 0 a number that is not [<= 0] gives that number. *)
Lemma add_zero_l (x : float) :
  PrimFloat.leb x PrimFloat.zero = false →
  PrimFloat.add PrimFloat.zero x = x.
Proof.
  intros H. apply Prim2SF_inj. rewrite FloatAxioms.add_spec, Prim2SF_zero.
  rewrite FloatAxioms.leb_spec, Prim2SF_zero in H. unfold SFleb in H.
  destruct (Prim2SF x) as [[]|[]| |[] m e]; cbn in *;
    reflexivity || discriminate.
Qed.

(** parseFloat changes no comparison with 0. *)
Lemma parseFloat_leb_zero (x : float) :
  PrimFloat.leb (Binary64.parseFloat x) PrimFloat.zero
  = PrimFloat.leb x PrimFloat.zero.
Proof.
  unfold Binary64.parseFloat.
  destruct (PrimFloat.eqb x PrimFloat.zero) eqn:E; [| reflexivity].
  rewrite FloatAxioms.eqb_spec, Prim2SF_zero in E.
  rewrite !FloatAxioms.leb_spec, Prim2SF_zero.
  unfold SFeqb in E. unfold SFleb.
  destruct (Prim2SF x) as [[]|[]| |[] m e]; cbn in *;
    reflexivity || discriminate.
Qed.

Lemma parseFloat_ltb_zero (x : float) :
  PrimFloat.ltb (Binary64.parseFloat x) PrimFloat.zero
  = PrimFloat.ltb x PrimFloat.zero.
Proof.
  unfold Binary64.parseFloat.
  destruct (PrimFloat.eqb x PrimFloat.zero) eqn:E; [| reflexivity].
  rewrite FloatAxioms.eqb_spec, Prim2SF_zero in E.
  rewrite !FloatAxioms.ltb_spec, Prim2SF_zero.
  unfold SFeqb in E. unfold SFltb.
  destruct (Prim2SF x) as [[]|[]| |[] m e]; cbn in *;
    reflexivity || discriminate.
Qed.

(** ** Transaction.isValid *)

(** isValid answers true exactly when sender and receiver are
    non-empty, [amount <= 0] and [fee < 0] are both false, and the
    sender is COINBASE or GENESIS or the stored identifier is the
    recomputed content hash. *)
Lemma isValid_binary64 (tx : Binary64.Transaction.t) :
  Binary64.Transaction.isValid tx = true ↔
    (Binary64.Transaction.sender tx ≠ "" ∧ Binary64.Transaction.receiver tx ≠ "")
    ∧ PrimFloat.leb (Binary64.Transaction.amount tx) PrimFloat.zero = false
    ∧ PrimFloat.ltb (Binary64.Transaction.fee tx) PrimFloat.zero = false
    ∧ ((Binary64.Transaction.sender tx = "COINBASE"
        ∨ Binary64.Transaction.sender tx = "GENESIS")
       ∨ Binary64.Transaction.txId tx
         = sha256_hex (Binary64.Transaction.sender tx
                       +:+ Binary64.Transaction.receiver tx
                       +:+ Binary64.Number_toString (Binary64.Transaction.amount tx)
                       +:+ Binary64.Number_toString (Binary64.Transaction.fee tx)
                       +:+ Z_toString (Binary64.Transaction.timestamp tx))).
Proof.
  unfold Binary64.Transaction.isValid, Binary64.Transaction.calculateHash.
  destruct (falsy_str (Binary64.Transaction.sender tx)) eqn:Hs; cbn [orb].
  { apply falsy_str_spec in Hs. split; [discriminate | tauto]. }
  destruct (falsy_str (Binary64.Transaction.receiver tx)) eqn:Hr.
  { apply falsy_str_spec in Hr. split; [discriminate | tauto]. }
  apply falsy_str_false in Hs, Hr.
  destruct (PrimFloat.leb (Binary64.Transaction.amount tx) PrimFloat.zero).
  { split; [discriminate |]. intros (_ & ? & _). discriminate. }
  destruct (PrimFloat.ltb (Binary64.Transaction.fee tx) PrimFloat.zero).
  { split; [discriminate |]. intros (_ & _ & ? & _). discriminate. }
  destruct (String.eqb (Binary64.Transaction.sender tx) "COINBASE") eqn:Hc;
    cbn [orb].
  { apply String.eqb_eq in Hc. tauto. }
  destruct (String.eqb (Binary64.Transaction.sender tx) "GENESIS") eqn:Hg.
  { apply String.eqb_eq in Hg. tauto. }
  apply String.eqb_neq in Hc, Hg.
  rewrite String.eqb_eq. tauto.
Qed.

(** C5: a transaction whose amount is NaN is valid, and so is one
    whose fee is NaN.  isValid refuses an amount that is [<= 0] and a
    fee that is [< 0]; neither comparison holds of NaN, so such a
    transaction passes although its amount is not greater than 0 and
    its fee is not at least 0. *)
Theorem Transaction_isValid_accepts_NaN :
  (Binary64.Transaction.isValid nan_payment = true
   ∧ PrimFloat.is_nan (Binary64.Transaction.amount nan_payment) = true
   ∧ PrimFloat.ltb PrimFloat.zero (Binary64.Transaction.amount nan_payment)
     = false)
  ∧ (Binary64.Transaction.isValid nan_fee_payment = true
     ∧ PrimFloat.is_nan (Binary64.Transaction.fee nan_fee_payment) = true
     ∧ PrimFloat.leb PrimFloat.zero (Binary64.Transaction.fee nan_fee_payment)
       = false).
Proof. repeat split; vm_compute; reflexivity. Qed.


(** ** Merkle root *)


Lemma list_pair_ind {A : Type} (P : list A → Prop) :
  P [] → (∀ x, P [x]) → (∀ x y l, P l → P (x :: y :: l)) → ∀ l, P l.
Proof.
  intros Hnil Hone Hstep l.
  assert (H : P l ∧ ∀ x, P (x :: l)).
  { induction l as [|y l [IH1 IH2]]; split; auto. }
  exact (proj1 H).
Qed.

Lemma merkle_level_length (hs : list string) :
  (2 * length (Block.merkle_level hs) = length hs + length hs mod 2)%nat.
Proof.
  induction hs as [| x | x y l IH] using list_pair_ind; [reflexivity..|].
  cbn [Block.merkle_level length].
  replace (S (S (length l))) with (length l + 1 * 2)%nat by lia.
  rewrite Nat.Div0.mod_add. lia.
Qed.

Lemma merkle_level_shrinks (hs : list string) :
  (1 < length hs)%nat →
  (0 < length (Block.merkle_level hs) < length hs)%nat.
Proof.
  intros H. pose proof (merkle_level_length hs) as E.
  pose proof (Nat.mod_upper_bound (length hs) 2). lia.
Qed.

Lemma merkle_level_truthy (hs : list string) :
  Forall (λ h, falsy_str h = false) (Block.merkle_level hs).
Proof.
  induction hs as [| x | x y l IH] using list_pair_ind; cbn [Block.merkle_level].
  - constructor.
  - constructor; [apply sha256_hex_truthy | constructor].
  - constructor; [apply sha256_hex_truthy | exact IH].
Qed.

(** On hashes that are all present, a pass of the loop is the pairing
    of the specification. *)
Lemma merkle_level_pair_level (hs : list string) :
  Forall (λ h, falsy_str h = false) hs →
  Block.merkle_level hs = MerkleSpec.pair_level hs.
Proof.
  induction hs as [| x | x y l IH] using list_pair_ind; intros HF;
    [reflexivity..|].
  cbn [Block.merkle_level MerkleSpec.pair_level].
  inversion HF as [|? ? _ HF1]; subst.
  inversion HF1 as [|? ? Hy HF2]; subst.
  rewrite Hy, (IH HF2). reflexivity.
Qed.

(** The loop leaves one hash, the one the specification describes. *)
Lemma merkle_loop_reduces (fuel : nat) (hs : list string) :
  hs ≠ [] → (length hs ≤ fuel)%nat →
  Forall (λ h, falsy_str h = false) hs →
  MerkleSpec.reduces hs (hd "" (Block.merkle_loop fuel hs)).
Proof.
  revert hs. induction fuel as [|f IH]; intros hs Hne Hlen HF.
  - destruct hs; [congruence | cbn in Hlen; lia].
  - cbn [Block.merkle_loop].
    destruct (1 <? length hs)%nat eqn:Hlt.
    + apply Nat.ltb_lt in Hlt.
      pose proof (merkle_level_shrinks hs Hlt) as [Hpos Hless].
      apply MerkleSpec.reduces_level; [exact Hlt |].
      rewrite <- (merkle_level_pair_level hs HF).
      apply IH.
      * intros E. rewrite E in Hpos. cbn in Hpos. lia.
      * lia.
      * apply merkle_level_truthy.
    + apply Nat.ltb_ge in Hlt.
      destruct hs as [|h [|h' l]]; [congruence | | cbn in Hlt; lia].
      cbn [hd]. constructor.
Qed.

Lemma reduces_functional (hs : list string) (r1 r2 : string) :
  MerkleSpec.reduces hs r1 → MerkleSpec.reduces hs r2 → r1 = r2.
Proof.
  intros H1. revert r2.
  induction H1 as [h | hs root Hlen _ IH]; intros r2 H2.
  - inversion H2 as [| ? ? Hlen']; subst; [reflexivity | cbn in Hlen'; lia].
  - inversion H2 as [| ? ? _ H2']; subst; [cbn in Hlen; lia |].
    apply IH. exact H2'.
Qed.

(** The leaf of a transaction is its identifier when it has one, and
    its recomputed content hash when the identifier is empty. *)
Lemma leaf_txId (tx : Transaction.t) :
  Transaction.txId tx ≠ "" → Block.leaf tx = Transaction.txId tx.
Proof.
  intros H. unfold Block.leaf. apply falsy_str_false in H. rewrite H.
  reflexivity.
Qed.

Lemma leaf_fallback (tx : Transaction.t) :
  Transaction.txId tx = "" → Block.leaf tx = Transaction.calculateHash tx.
Proof. intros H. unfold Block.leaf. rewrite H. reflexivity. Qed.

Lemma leaf_truthy (tx : Transaction.t) : falsy_str (Block.leaf tx) = false.
Proof.
  unfold Block.leaf. destruct (falsy_str (Transaction.txId tx)) eqn:E.
  - apply sha256_hex_truthy.
  - exact E.
Qed.

(** Whatever the identifiers are, the root is the reduction of the
    leaves. *)
Lemma calculateMerkleRoot_leaves (b : Block.t) :
  Block.transactions b ≠ [] →
  MerkleSpec.reduces (map Block.leaf (Block.transactions b))
                     (Block.calculateMerkleRoot b).
Proof.
  intros Hne. unfold Block.calculateMerkleRoot.
  destruct (Block.transactions b) as [|tx txs] eqn:E; [congruence |].
  apply merkle_loop_reduces.
  - discriminate.
  - reflexivity.
  - apply List.Forall_forall. intros h Hin. apply in_map_iff in Hin.
    destruct Hin as (x & <- & _). apply leaf_truthy.
Qed.

(** The constructor stores the root it computes over its transactions. *)
Lemma Block_new_merkleRoot now index txs ts prev nonce d :
  Block.merkleRoot (Block.new now index txs ts prev nonce d)
  = Some (Block.calculateMerkleRoot (Block.new now index txs ts prev nonce d)).
Proof. reflexivity. Qed.

(** C9: the Merkle root is the hash of the empty string when the block
    has no transaction.  Otherwise it is the single hash left after
    repeatedly hashing the concatenation of adjacent hashes, the last
    hash of an odd level being paired with itself.  The leaf of a
    transaction is its identifier, or its recomputed content hash when
    the stored identifier is empty; so the leaves are the identifiers
    whenever every transaction carries one.  The constructor stores
    that root. *)
Theorem calculateMerkleRoot_spec (b : Block.t) :
  (Block.transactions b = [] → Block.calculateMerkleRoot b = sha256_hex "")
  ∧ (Block.transactions b ≠ [] →
     MerkleSpec.reduces
       (map (λ tx, if String.eqb (Transaction.txId tx) ""
                   then Transaction.calculateHash tx
                   else Transaction.txId tx)
            (Block.transactions b))
       (Block.calculateMerkleRoot b))
  ∧ (Block.transactions b ≠ [] →
     Forall (λ tx, Transaction.txId tx ≠ "") (Block.transactions b) →
     MerkleSpec.reduces (map Transaction.txId (Block.transactions b))
                        (Block.calculateMerkleRoot b))
  ∧ (∀ now ts,
       Block.merkleRoot
         (Block.new now (Block.index b) (Block.transactions b) ts
                    (Block.previousHash b) (Block.nonce b) (Block.difficulty b))
       = Some (Block.calculateMerkleRoot b)).
Proof.
  split; [| split; [| split]].
  - intros E. unfold Block.calculateMerkleRoot. rewrite E. reflexivity.
  - intros Hne. exact (calculateMerkleRoot_leaves b Hne).
  - intros Hne Hids.
    replace (map Transaction.txId (Block.transactions b))
      with (map Block.leaf (Block.transactions b)).
    + apply calculateMerkleRoot_leaves. exact Hne.
    + apply map_ext_in. intros tx Hin. apply leaf_txId.
      rewrite List.Forall_forall in Hids. apply Hids. exact Hin.
  - intros now ts. reflexivity.
Qed.

(** The block mined over [payment]: two transactions, both with an
    identifier, so one hash of the two identifiers joined. *)
Lemma calculateMerkleRoot_spec_witness :
  MerkleSpec.reduces (map Transaction.txId (Block.transactions paid_block))
                     (Block.calculateMerkleRoot paid_block).
Proof.
  apply (proj1 (proj2 (proj2 (calculateMerkleRoot_spec paid_block)))).
  - discriminate.
  - repeat (constructor; [discriminate |]). constructor.
Defined.

(** C9 as it is stated fails for a transaction that carries no
    identifier.  A block holding [unnamed_payment] alone has one
    identifier, the empty text, which would be the root were the
    identifiers the leaves; the root computed and stored is the content
    hash of the payment. *)
Lemma calculateMerkleRoot_empty_txId :
  map Transaction.txId (Block.transactions unnamed_block) = [""]
  ∧ Block.calculateMerkleRoot unnamed_block
    = "7baacafff579ed358820c3ec8fcae0faa175184d6d68644d46252d489f82c56a"
  ∧ Block.merkleRoot unnamed_block
    = Some (Block.calculateMerkleRoot unnamed_block)
  ∧ ¬ MerkleSpec.reduces
        (map Transaction.txId (Block.transactions unnamed_block))
        (Block.calculateMerkleRoot unnamed_block).
Proof.
  split; [reflexivity |]. split; [vm_compute; reflexivity |].
  split; [reflexivity |].
  intros H.
  assert (E : ∀ hs root, MerkleSpec.reduces hs root → hs = [""] → root = "").
  { intros hs root Hred. destruct Hred as [h | hs root Hlen _]; intros E0.
    - injection E0 as ->. reflexivity.
    - rewrite E0 in Hlen. cbn in Hlen. lia. }
  specialize (E _ _ H eq_refl). revert E. vm_compute. discriminate.
Qed.

(** With one transaction the root is its identifier, with two the hash
    of the two identifiers joined, with three the third is paired with
    itself. *)
Example merkle_root_of_three (a b c : string) :
  MerkleSpec.reduces [a; b; c]
    (sha256_hex (sha256_hex (a +:+ b) +:+ sha256_hex (c +:+ c))).
Proof.
  apply MerkleSpec.reduces_level; [cbn; lia |].
  apply MerkleSpec.reduces_level; [cbn; lia |].
  apply MerkleSpec.reduces_single.
Qed.

Example merkle_root_paid_block :
  Block.calculateMerkleRoot paid_block
  = sha256_hex
      ("09f33559897aeb9cba6199c6449bb30cc2bdbeaf5e27524e3a2d68602e053ad1"
       +:+ "7baacafff579ed358820c3ec8fcae0faa175184d6d68644d46252d489f82c56a")
  ∧ Block.merkleRoot paid_block = Some (Block.calculateMerkleRoot paid_block).
Proof. split; vm_compute; reflexivity. Qed.

(** ** Block construction and mining *)

(** The constructor takes the first hash while the Merkle root is still
    undefined, so that hash covers the text [undefined]. *)
Lemma Block_new_hash now index txs ts prev nonce d :
  let b := Block.new now index txs ts prev nonce d in
  Block.hash b
  = sha256_hex (Z_toString index +:+ prev +:+ Z_toString (Block.timestamp b)
                +:+ JSON_stringify txs +:+ Z_toString nonce +:+ "undefined").
Proof. reflexivity. Qed.

(** C3 at the genesis block as createGenesisBlock constructs it: the
    stored hash is not the content hash of the stored fields, and the
    block does not pass its own validity check. *)
Theorem Block_new_hash_not_recomputed :
  Block.hash genesis_candidate
  = "573b85d00c3a9f2e19a1c2bb383c586d39a3768387cb2159b293ec6acfe859e3"
  ∧ Block.merkleRoot genesis_candidate
    = Some "02dde424cfc20231ac37e72ccd0553eaa0923dac8abe7eb70af5a292f55fc899"
  ∧ Block.calculateHash genesis_candidate
    = "a2530d2985a178c79b9be314d57c44edbf7acfab9b592e7711f003e418cf9485"
  ∧ Block.hash genesis_candidate ≠ Block.calculateHash genesis_candidate
  ∧ Block.isValid genesis_candidate None = false.
Proof.
  split; [vm_compute; reflexivity |].
  split; [vm_compute; reflexivity |].
  split; [vm_compute; reflexivity |].
  split; [vm_compute; discriminate |].
  vm_compute; reflexivity.
Qed.

Lemma substring_repeat (c : ascii) (d : nat) (s : string) :
  substring 0 d s = String_repeat c d → ∃ rest, s = String_repeat c d +:+ rest.
Proof.
  revert s. induction d as [|d IH]; intros s H.
  - exists s. reflexivity.
  - destruct s as [|a s']; cbn in H; [discriminate |].
    injection H as -> H. destruct (IH s' H) as [rest ->].
    exists rest. reflexivity.
Qed.

Lemma mine_loop_unfold (fuel d : nat) (b : Block.t) :
  Block.mine_loop fuel d b
  = if negb (String.eqb (substring 0 d (Block.hash b)) (String_repeat "0" d))
    then match fuel with
         | O => None
         | S f =>
             Block.mine_loop f d
               (Block.set_hash
                  (Block.calculateHash (Block.set_nonce (Block.nonce b + 1) b))
                  (Block.set_nonce (Block.nonce b + 1) b))
         end
    else Some b.
Proof. destruct fuel; reflexivity. Qed.

(** When the loop ends, the hash meets the target. *)
Lemma mine_loop_target (fuel d : nat) (b b' : Block.t) :
  Block.mine_loop fuel d b = Some b' → leading_zeros d (Block.hash b').
Proof.
  revert b. induction fuel as [|f IH]; intros b; rewrite mine_loop_unfold;
    destruct (String.eqb _ _) eqn:E; cbn [negb]; try discriminate;
    try (intros H; exact (IH _ H)).
  all: intros [= <-]; apply String.eqb_eq in E;
    exact (substring_repeat _ _ _ E).
Qed.

(** The loop either leaves the block as it found it, or ends on a hash
    it has just recomputed. *)
Lemma mine_loop_hash (fuel d : nat) (b b' : Block.t) :
  Block.mine_loop fuel d b = Some b' →
  b' = b ∨ (Block.hash b' = Block.calculateHash b' ∧ Block.nonce b < Block.nonce b').
Proof.
  revert b. induction fuel as [|f IH]; intros b; rewrite mine_loop_unfold;
    destruct (String.eqb _ _) eqn:E; cbn [negb]; try discriminate;
    try (intros [= <-]; left; reflexivity).
  intros H. right. destruct (IH _ H) as [-> | [Hh Hn]].
  - split; [reflexivity | cbn; lia].
  - split; [exact Hh | cbn in Hn; lia].
Qed.

(** Mining changes the nonce, the hash and the miner, nothing else. *)
Lemma mine_loop_frame (fuel d : nat) (b b' : Block.t) :
  Block.mine_loop fuel d b = Some b' →
  Block.index b' = Block.index b
  ∧ Block.timestamp b' = Block.timestamp b
  ∧ Block.transactions b' = Block.transactions b
  ∧ Block.previousHash b' = Block.previousHash b
  ∧ Block.difficulty b' = Block.difficulty b
  ∧ Block.merkleRoot b' = Block.merkleRoot b
  ∧ Block.miner b' = Block.miner b
  ∧ Block.reward b' = Block.reward b.
Proof.
  revert b. induction fuel as [|f IH]; intros b; rewrite mine_loop_unfold;
    destruct (String.eqb _ _) eqn:E; cbn [negb]; try discriminate;
    try (intros [= <-]; repeat split; reflexivity).
  intros H. exact (IH _ H).
Qed.

(** Fuel beyond what the loop needs does not change its result. *)
Lemma mine_loop_more_fuel (fuel extra d : nat) (b b' : Block.t) :
  Block.mine_loop fuel d b = Some b' →
  Block.mine_loop (fuel + extra) d b = Some b'.
Proof.
  revert b. induction fuel as [|f IH]; intros b.
  - rewrite (mine_loop_unfold 0), (mine_loop_unfold (0 + extra)).
    destruct (String.eqb _ _); cbn [negb]; [trivial | discriminate].
  - rewrite (mine_loop_unfold (S f)), (mine_loop_unfold (S f + extra)).
    destruct (String.eqb _ _); cbn [negb]; [trivial |].
    cbn [Nat.add]. apply IH.
Qed.

(** What mineBlock guarantees on return: the target is met, the record
    returned carries the final nonce and hash, and the hash is the
    content hash of the block provided the loop ran at least once or
    the hash was the content hash to begin with. *)
Lemma mineBlock_returns (fuel d : nat) (m : string) (b b' : Block.t)
    (st : Block.MiningStats) :
  Block.mineBlock fuel d m b = Some (st, b') →
  leading_zeros d (Block.hash b')
  ∧ Block.stats_nonce st = Block.nonce b'
  ∧ Block.stats_hash st = Block.hash b'
  ∧ Block.miner b' = m
  ∧ (Block.nonce b' ≠ Block.nonce b ∨ Block.hash b = Block.calculateHash b →
     Block.hash b' = Block.calculateHash b').
Proof.
  unfold Block.mineBlock.
  destruct (Block.mine_loop fuel d (Block.set_miner m b)) as [b1|] eqn:E;
    [| discriminate].
  intros [= <- <-].
  pose proof (mine_loop_target _ _ _ _ E) as Ht.
  pose proof (mine_loop_frame _ _ _ _ E) as (_ & _ & _ & _ & _ & _ & Hm & _).
  pose proof (mine_loop_hash _ _ _ _ E) as Hh.
  split; [exact Ht |]. split; [reflexivity |]. split; [reflexivity |].
  split; [exact Hm |].
  intros Hcase. destruct Hh as [-> | [Hh _]]; [| exact Hh].
  destruct Hcase as [Hn | Hc]; [cbn in Hn; congruence |].
  exact Hc.
Qed.

(** C4 at a freshly constructed block whose first hash already meets
    the target: mineBlock returns at once with nonce 0, and the hash it
    returns and leaves in the block is not the content hash of the
    block, which therefore fails its validity check. *)
Theorem mineBlock_keeps_first_hash (fuel : nat) :
  let mined := Block.set_miner addressM lucky_candidate in
  Block.mineBlock fuel 5 addressM lucky_candidate
  = Some (Block.mkStats 0
            "00000adee8dd675ff82a1a34131bf896b35eec744f61e7ec6acc58ad2375c47f",
          mined)
  ∧ leading_zeros 5 (Block.hash mined)
  ∧ Block.calculateHash mined
    = "041b1f012869df87dcce552bdaf44160ae6d228c72ab411c3567fe84533b0d14"
  ∧ Block.hash mined ≠ Block.calculateHash mined
  ∧ Block.isValid mined None = false.
Proof.
  cbv zeta.
  assert (E : Block.mineBlock fuel 5 addressM lucky_candidate
              = Some (Block.mkStats 0
                "00000adee8dd675ff82a1a34131bf896b35eec744f61e7ec6acc58ad2375c47f",
                Block.set_miner addressM lucky_candidate)).
  { unfold Block.mineBlock. rewrite mine_loop_unfold.
    vm_compute. reflexivity. }
  split; [exact E |].
  split; [exact (proj1 (mineBlock_returns _ _ _ _ _ _ E)) |].
  split; [vm_compute; reflexivity |].
  split; [vm_compute; discriminate |].
  vm_compute; reflexivity.
Qed.

(** ** Block reward *)

Lemma getCurrentReward_height (L : GSCBlockchain.t) (h : Z) :
  Z.of_nat (length (GSCBlockchain.chain L)) = h + 1 →
  GSCBlockchain.getCurrentReward L
  = if h =? 0 then GSCBlockchain.miningReward L
    else if (h - 1) / GSCBlockchain.halvingInterval L >=? 64 then 0%Q
    else (GSCBlockchain.miningReward L
          / Qpower 2 ((h - 1) / GSCBlockchain.halvingInterval L))%Q.
Proof.
  intros E. unfold GSCBlockchain.getCurrentReward. rewrite E.
  replace (h + 1 - 1) with h by lia. reflexivity.
Qed.

Lemma ledger_of_length_height (h : Z) :
  0 <= h →
  Z.of_nat (length (GSCBlockchain.chain (ledger_of_length (Z.to_nat (h + 1)))))
  = h + 1.
Proof.
  intros Hh. unfold ledger_of_length.
  cbn [GSCBlockchain.chain GSCBlockchain.set_chain].
  rewrite repeat_length. apply Z2Nat.id. lia.
Qed.

(** With only genesis in the chain the reward is the base reward. *)
Lemma getCurrentReward_genesis_only (L : GSCBlockchain.t) :
  length (GSCBlockchain.chain L) = 1%nat →
  GSCBlockchain.getCurrentReward L = GSCBlockchain.miningReward L.
Proof.
  intros E. rewrite (getCurrentReward_height L 0); [reflexivity |].
  rewrite E. reflexivity.
Qed.

(** At heights [k * interval + 1 .. (k + 1) * interval] the reward has
    been halved [k] times: the count of halvings is taken from
    [height - 1]. *)
Lemma getCurrentReward_era (L : GSCBlockchain.t) (k j : Z) :
  0 < GSCBlockchain.halvingInterval L →
  0 <= k → 0 <= j < GSCBlockchain.halvingInterval L →
  Z.of_nat (length (GSCBlockchain.chain L))
  = k * GSCBlockchain.halvingInterval L + j + 2 →
  GSCBlockchain.getCurrentReward L
  = if k >=? 64 then 0%Q else (GSCBlockchain.miningReward L / Qpower 2 k)%Q.
Proof.
  intros HI Hk Hj E.
  rewrite (getCurrentReward_height L (k * GSCBlockchain.halvingInterval L + j + 1))
    by lia.
  destruct (Z.eqb_spec (k * GSCBlockchain.halvingInterval L + j + 1) 0) as [E0|_];
    [nia |].
  replace ((k * GSCBlockchain.halvingInterval L + j + 1 - 1)
           / GSCBlockchain.halvingInterval L) with k; [reflexivity |].
  apply (Z.div_unique _ _ k j); lia.
Qed.

(** C2 at the two heights the specification names.  One halving
    interval past genesis the reward is still the whole base reward,
    not half of it; 64 intervals past genesis it is the base reward
    halved 63 times, not 0. *)
Theorem getCurrentReward_at_interval_boundaries :
  let one := ledger_of_length (Z.to_nat (1051200 + 1)) in
  let last := ledger_of_length (Z.to_nat (64 * 1051200 + 1)) in
  (GSCBlockchain.getCurrentReward one == 50)%Q
  ∧ ¬ (GSCBlockchain.getCurrentReward one == 50 / 2)%Q
  ∧ (GSCBlockchain.getCurrentReward last == 50 / Qpower 2 63)%Q
  ∧ ¬ (GSCBlockchain.getCurrentReward last == 0)%Q.
Proof.
  cbv zeta.
  rewrite (getCurrentReward_height _ 1051200)
    by (apply ledger_of_length_height; lia).
  rewrite (getCurrentReward_height _ (64 * 1051200))
    by (apply ledger_of_length_height; lia).
  unfold ledger_of_length.
  cbn [GSCBlockchain.halvingInterval GSCBlockchain.miningReward
       GSCBlockchain.set_chain GSCBlockchain.initial].
  split; [vm_compute; reflexivity |].
  split; [vm_compute; discriminate |].
  split; [vm_compute; reflexivity |].
  vm_compute; discriminate.
Qed.

(** ** The genesis ledger *)

Lemma constructor_fresh : GSCBlockchain.constructor 64 = Some fresh.
Proof. vm_compute. reflexivity. Qed.

(** ** addBlock *)

Lemma set_isMining_same (L : GSCBlockchain.t) :
  GSCBlockchain.isMining L = false →
  GSCBlockchain.set_isMining false (GSCBlockchain.set_isMining true L) = L.
Proof. destruct L; cbn; intros ->; reflexivity. Qed.

(** C7: a block that fails isValid against the tip is refused and the
    ledger stays as it was, chain and balances included; a block that
    passes is pushed at the end of the chain, the balances become the
    ones computed from the empty table over the whole new chain, and
    the answer is true. *)
Theorem addBlock_atomic (L : GSCBlockchain.t) (b : Block.t) :
  (Block.isValid b (GSCBlockchain.getLatestBlock L) = false →
   GSCBlockchain.addBlock L b = (false, L))
  ∧ (Block.isValid b (GSCBlockchain.getLatestBlock L) = true →
     ∃ L', GSCBlockchain.addBlock L b = (true, L')
       ∧ GSCBlockchain.chain L' = (GSCBlockchain.chain L ++ [b])%list
       ∧ GSCBlockchain.balances L'
         = fold_left GSCBlockchain.apply_block
                     (GSCBlockchain.chain L ++ [b])%list ∅
       ∧ GSCBlockchain.mempool L' = GSCBlockchain.mempool L).
Proof.
  unfold GSCBlockchain.addBlock. split; intros ->.
  - reflexivity.
  - eexists. split; [reflexivity |]. repeat split.
Qed.

(** The block of [lucky_candidate] is refused by the genesis ledger;
    [paid_block] is taken. *)
Lemma addBlock_atomic_witness :
  GSCBlockchain.addBlock fresh (Block.set_miner addressM lucky_candidate)
  = (false, fresh)
  ∧ ∃ L', GSCBlockchain.addBlock fresh paid_block = (true, L')
      ∧ GSCBlockchain.chain L' = (GSCBlockchain.chain fresh ++ [paid_block])%list
      ∧ GSCBlockchain.balances L'
        = fold_left GSCBlockchain.apply_block
                    (GSCBlockchain.chain fresh ++ [paid_block])%list ∅
      ∧ GSCBlockchain.mempool L' = GSCBlockchain.mempool fresh.
Proof.
  split.
  - apply (addBlock_atomic fresh (Block.set_miner addressM lucky_candidate)).
    vm_compute. reflexivity.
  - apply (addBlock_atomic fresh paid_block).
    vm_compute. reflexivity.
Defined.

(** ** Mempool admission *)

(** The left fold of isTransactionValid over the sender's pending
    transactions adds up their costs. *)
Lemma totalSpending_pending_cost (sender : string) (pool : list Transaction.t)
    (acc : Q) :
  (fold_left (λ sum tx, sum + Transaction.amount tx + Transaction.fee tx)
     (List.filter (λ tx, String.eqb (Transaction.sender tx) sender) pool) acc
   == acc + pending_cost sender pool)%Q.
Proof.
  revert acc. induction pool as [|tx pool IH]; intros acc; cbn.
  - lra.
  - destruct (String.eqb (Transaction.sender tx) sender); cbn.
    + rewrite IH. unfold cost. lra.
    + apply IH.
Qed.

Lemma pending_cost_app (sender : string) (pool1 pool2 : list Transaction.t) :
  (pending_cost sender (pool1 ++ pool2)
   == pending_cost sender pool1 + pending_cost sender pool2)%Q.
Proof.
  induction pool1 as [|tx pool1 IH]; cbn.
  - lra.
  - destruct (String.eqb (Transaction.sender tx) sender); [rewrite IH |]; lra.
Qed.

(** The admission rule: a valid candidate is admitted when its cost
    added to the cost of everything the same sender has pending is
    within the sender's balance in the ledger. *)
Lemma isTransactionValid_rule (L : GSCBlockchain.t) (tx : Transaction.t) :
  GSCBlockchain.isTransactionValid L tx
  = Transaction.isValid tx
    && Qle_bool (pending_cost (Transaction.sender tx) (GSCBlockchain.mempool L)
                 + cost tx)
                (GSCBlockchain.getBalance L (Transaction.sender tx)).
Proof.
  unfold GSCBlockchain.isTransactionValid.
  destruct (Transaction.isValid tx); cbn [negb andb]; [| reflexivity].
  apply Qleb_comp; [| reflexivity].
  rewrite totalSpending_pending_cost. unfold cost. lra.
Qed.

(** *** Admission on binary64 amounts *)

(** [opened] shows the mempool and the balance table of [fresh]. *)
Example opened_as_fresh :
  GSCBlockchain.mempool fresh = []
  ∧ map_to_list (GSCBlockchain.balances fresh)
    = [(genesis_address, 255%Q); ("GENESIS", 0%Q)]
  ∧ Binary64.GSCBlockchain.mempool opened = []
  ∧ map_to_list (Binary64.GSCBlockchain.balances opened)
    = [(genesis_address, 255%float); ("GENESIS", 0%float)].
Proof. repeat split; vm_compute; reflexivity. Qed.

Lemma rounded_pending_snoc (a : string) (pool : list Binary64.Transaction.t)
    (tx : Binary64.Transaction.t) :
  rounded_pending a (pool ++ [tx])
  = if String.eqb (Binary64.Transaction.sender tx) a
    then PrimFloat.add (PrimFloat.add (rounded_pending a pool)
                                      (Binary64.Transaction.amount tx))
                       (Binary64.Transaction.fee tx)
    else rounded_pending a pool.
Proof.
  unfold rounded_pending. rewrite List.filter_app, fold_left_app. cbn.
  destruct (String.eqb (Binary64.Transaction.sender tx) a); reflexivity.
Qed.

Lemma rounded_pending_none (a : string) (pool : list Binary64.Transaction.t) :
  (∀ tx, In tx pool → Binary64.Transaction.sender tx ≠ a) →
  rounded_pending a pool = PrimFloat.zero.
Proof.
  unfold rounded_pending. induction pool as [|tx pool IH]; intros H; cbn;
    [reflexivity |].
  destruct (String.eqb_spec (Binary64.Transaction.sender tx) a) as [E|_].
  - exfalso. exact (H tx (or_introl eq_refl) E).
  - apply IH. intros tx' Hin. apply H. right. exact Hin.
Qed.

(** The admission rule: a valid candidate passes when what its sender
    has pending, then its amount, then its fee, added in binary64 in
    that order, is at most the sender's balance. *)
Lemma isTransactionValid_binary64 (L : Binary64.GSCBlockchain.t)
    (tx : Binary64.Transaction.t) :
  Binary64.GSCBlockchain.isTransactionValid L tx
  = Binary64.Transaction.isValid tx
    && Binary64.leb_value
         (PrimFloat.add
            (PrimFloat.add
               (rounded_pending (Binary64.Transaction.sender tx)
                                (Binary64.GSCBlockchain.mempool L))
               (Binary64.Transaction.amount tx))
            (Binary64.Transaction.fee tx))
         (Binary64.GSCBlockchain.getBalance L (Binary64.Transaction.sender tx)).
Proof.
  unfold Binary64.GSCBlockchain.isTransactionValid.
  destruct (Binary64.Transaction.isValid tx); reflexivity.
Qed.

Lemma existsb_txId64_false (pool : list Binary64.Transaction.t) (id : string) :
  (∀ tx, In tx pool → Binary64.Transaction.txId tx ≠ id) →
  existsb (λ tx, String.eqb (Binary64.Transaction.txId tx) id) pool = false.
Proof.
  induction pool as [|tx pool IH]; intros H; cbn; [reflexivity |].
  rewrite (proj2 (String.eqb_neq _ _) (H tx (or_introl eq_refl))).
  apply IH. intros tx' Hin. apply H. right. exact Hin.
Qed.

Lemma isValid_amount_not_leb (tx : Binary64.Transaction.t) :
  Binary64.Transaction.isValid tx = true →
  PrimFloat.leb (Binary64.Transaction.amount tx) PrimFloat.zero = false.
Proof. intros H. apply isValid_binary64 in H. tauto. Qed.

(** C6, as amended: let a sender hold the balance [b] and have nothing
    pending.  A valid transaction of that sender that is not queued
    yet and costs at most [b] is admitted; a second transaction of the
    sender is then refused whenever the binary64 sum of the first
    amount and fee, the second amount and the second fee is not within
    [b].  Admission compares that sum, taken over everything the sender
    has pending and the candidate, with the sender's balance. *)
Theorem double_spend_rejected (L : Binary64.GSCBlockchain.t)
    (t1 t2 : Binary64.Transaction.t) (b : float) :
  Binary64.Transaction.isValid t1 = true →
  Binary64.Transaction.sender t2 = Binary64.Transaction.sender t1 →
  (∀ tx, In tx (Binary64.GSCBlockchain.mempool L) →
         Binary64.Transaction.sender tx ≠ Binary64.Transaction.sender t1
         ∧ Binary64.Transaction.txId tx ≠ Binary64.Transaction.txId t1) →
  Binary64.GSCBlockchain.getBalance L (Binary64.Transaction.sender t1)
  = Binary64.Num b →
  PrimFloat.leb (rounded_cost t1) b = true →
  PrimFloat.leb
    (PrimFloat.add (PrimFloat.add (rounded_cost t1)
                                  (Binary64.Transaction.amount t2))
                   (Binary64.Transaction.fee t2)) b = false →
  (∃ L1,
     Binary64.GSCBlockchain.addTransactionToMempool L t1
     = (Binary64.GSCBlockchain.mkResult true "Transaction added to mempool",
        L1)
     ∧ Binary64.GSCBlockchain.mempool L1
       = (Binary64.GSCBlockchain.mempool L ++ [t1])%list
     ∧ Binary64.GSCBlockchain.balances L1 = Binary64.GSCBlockchain.balances L
     ∧ Binary64.GSCBlockchain.addTransactionToMempool L1 t2
       = (Binary64.GSCBlockchain.mkResult false "Invalid transaction", L1))
  ∧ (∀ L' tx,
       Binary64.GSCBlockchain.isTransactionValid L' tx
       = Binary64.Transaction.isValid tx
         && Binary64.leb_value
              (PrimFloat.add
                 (PrimFloat.add
                    (rounded_pending (Binary64.Transaction.sender tx)
                                     (Binary64.GSCBlockchain.mempool L'))
                    (Binary64.Transaction.amount tx))
                 (Binary64.Transaction.fee tx))
              (Binary64.GSCBlockchain.getBalance
                 L' (Binary64.Transaction.sender tx))).
Proof.
  intros Hv1 Hs Hfree Hbal Hc1 Hboth.
  split; [| exact isTransactionValid_binary64].
  assert (Hnone : rounded_pending (Binary64.Transaction.sender t1)
                                  (Binary64.GSCBlockchain.mempool L)
                  = PrimFloat.zero).
  { apply rounded_pending_none. intros tx Hin. exact (proj1 (Hfree tx Hin)). }
  pose proof (add_zero_l _ (isValid_amount_not_leb t1 Hv1)) as Hzero.
  eexists. split; [| split; [| split]].
  - unfold Binary64.GSCBlockchain.addTransactionToMempool.
    rewrite isTransactionValid_binary64, Hv1, Hnone, Hzero, Hbal.
    cbn [andb Binary64.leb_value]. fold (rounded_cost t1).
    rewrite Hc1, (leb_not_ltb _ _ Hc1). cbn [negb].
    rewrite existsb_txId64_false; [reflexivity |].
    intros tx Hin. exact (proj2 (Hfree tx Hin)).
  - reflexivity.
  - reflexivity.
  - unfold Binary64.GSCBlockchain.addTransactionToMempool.
    rewrite isTransactionValid_binary64, Hs.
    cbn [Binary64.GSCBlockchain.mempool Binary64.GSCBlockchain.set_mempool].
    rewrite rounded_pending_snoc, String.eqb_refl, Hnone, Hzero.
    change (Binary64.GSCBlockchain.getBalance
              (Binary64.GSCBlockchain.set_mempool _ L))
      with (Binary64.GSCBlockchain.getBalance L).
    rewrite Hbal. cbn [Binary64.leb_value]. fold (rounded_cost t1).
    rewrite Hboth, andb_false_r. reflexivity.
Qed.

(** The genesis address holds 255: a payment of 200.1 is admitted, a
    further one of 100.1 is refused. *)
Lemma double_spend_rejected_witness :
  (∃ L1,
     Binary64.GSCBlockchain.addTransactionToMempool opened large_payment64
     = (Binary64.GSCBlockchain.mkResult true "Transaction added to mempool",
        L1)
     ∧ Binary64.GSCBlockchain.mempool L1
       = (Binary64.GSCBlockchain.mempool opened ++ [large_payment64])%list
     ∧ Binary64.GSCBlockchain.balances L1
       = Binary64.GSCBlockchain.balances opened
     ∧ Binary64.GSCBlockchain.addTransactionToMempool L1 second_payment64
       = (Binary64.GSCBlockchain.mkResult false "Invalid transaction", L1))
  ∧ (∀ L' tx,
       Binary64.GSCBlockchain.isTransactionValid L' tx
       = Binary64.Transaction.isValid tx
         && Binary64.leb_value
              (PrimFloat.add
                 (PrimFloat.add
                    (rounded_pending (Binary64.Transaction.sender tx)
                                     (Binary64.GSCBlockchain.mempool L'))
                    (Binary64.Transaction.amount tx))
                 (Binary64.Transaction.fee tx))
              (Binary64.GSCBlockchain.getBalance
                 L' (Binary64.Transaction.sender tx))).
Proof.
  apply (double_spend_rejected opened large_payment64 second_payment64
           255%float).
  - vm_compute. reflexivity.
  - reflexivity.
  - intros tx Hin. destruct Hin.
  - vm_compute. reflexivity.
  - vm_compute. reflexivity.
  - vm_compute. reflexivity.
Defined.

(** C6 as it is stated fails twice over.  With all of the balance
    already spent by a first payment of 255, a second payment of 1e-14
    is admitted as well: each costs at most 255, together they cost
    more, and yet 255 + 1e-14 is 255 in binary64.  And with a payment
    of 10.1 pending, of a payment of 250.1 and one of 10.1, each within
    the balance of 255 and together beyond it, the first is refused and
    the second admitted. *)
Lemma double_spend_counterexample :
  (Binary64.GSCBlockchain.getBalance opened genesis_address
   = Binary64.Num 255%float
   ∧ (Binary64.exact (Binary64.Transaction.amount whole_payment)
      + Binary64.exact (Binary64.Transaction.fee whole_payment) <= 255)%Q
   ∧ (Binary64.exact (Binary64.Transaction.amount dust_payment)
      + Binary64.exact (Binary64.Transaction.fee dust_payment) <= 255)%Q
   ∧ (255 < Binary64.exact (Binary64.Transaction.amount whole_payment)
            + Binary64.exact (Binary64.Transaction.fee whole_payment)
            + Binary64.exact (Binary64.Transaction.amount dust_payment)
            + Binary64.exact (Binary64.Transaction.fee dust_payment))%Q
   ∧ ∃ L1 L2,
       Binary64.GSCBlockchain.addTransactionToMempool opened whole_payment
       = (Binary64.GSCBlockchain.mkResult true "Transaction added to mempool",
          L1)
       ∧ Binary64.GSCBlockchain.addTransactionToMempool L1 dust_payment
         = (Binary64.GSCBlockchain.mkResult true
              "Transaction added to mempool", L2)
       ∧ Binary64.GSCBlockchain.mempool L2 = [whole_payment; dust_payment])
  ∧ (Binary64.GSCBlockchain.getBalance opened_with_payment genesis_address
     = Binary64.Num 255%float
     ∧ (Binary64.exact (Binary64.Transaction.amount payment_of_250)
        + Binary64.exact (Binary64.Transaction.fee payment_of_250) <= 255)%Q
     ∧ (Binary64.exact (Binary64.Transaction.amount later_payment64)
        + Binary64.exact (Binary64.Transaction.fee later_payment64) <= 255)%Q
     ∧ (255 < Binary64.exact (Binary64.Transaction.amount payment_of_250)
              + Binary64.exact (Binary64.Transaction.fee payment_of_250)
              + Binary64.exact (Binary64.Transaction.amount later_payment64)
              + Binary64.exact (Binary64.Transaction.fee later_payment64))%Q
     ∧ Binary64.GSCBlockchain.addTransactionToMempool
         opened_with_payment payment_of_250
       = (Binary64.GSCBlockchain.mkResult false "Invalid transaction",
          opened_with_payment)
     ∧ ∃ L2,
         Binary64.GSCBlockchain.addTransactionToMempool
           opened_with_payment later_payment64
         = (Binary64.GSCBlockchain.mkResult true
              "Transaction added to mempool", L2)).
Proof.
  split.
  - split; [vm_compute; reflexivity |].
    split; [vm_compute; discriminate |].
    split; [vm_compute; discriminate |].
    split; [vm_compute; reflexivity |].
    eexists. eexists.
    split; [vm_compute; reflexivity |].
    split; vm_compute; reflexivity.
  - split; [vm_compute; reflexivity |].
    split; [vm_compute; discriminate |].
    split; [vm_compute; discriminate |].
    split; [vm_compute; reflexivity |].
    split; [vm_compute; reflexivity |].
    eexists. vm_compute. reflexivity.
Qed.

(** ** minePendingTransactions *)

(** Evicting, front to back, the transactions taken from the front of
    the pool removes exactly those entries: each one is found at index
    0, whatever identifiers the rest of the pool carries. *)
Lemma evict_selected (n : nat) (pool : list Transaction.t) :
  fold_left GSCBlockchain.evict (firstn n pool) pool = skipn n pool.
Proof.
  revert n. induction pool as [|tx pool IH]; intros [|n]; try reflexivity.
  cbn [firstn skipn fold_left].
  unfold GSCBlockchain.evict at 2. cbn [GSCBlockchain.findIndex].
  rewrite String.eqb_refl. apply IH.
Qed.

Lemma mineBlock_transactions (fuel d : nat) (m : string) (b b' : Block.t)
    (st : Block.MiningStats) :
  Block.mineBlock fuel d m b = Some (st, b') →
  Block.transactions b' = Block.transactions b.
Proof.
  unfold Block.mineBlock.
  destruct (Block.mine_loop fuel d (Block.set_miner m b)) as [b1|] eqn:E;
    [| discriminate].
  intros [= _ <-].
  exact (proj1 (proj2 (proj2 (mine_loop_frame _ _ _ _ E)))).
Qed.

Lemma mineBlock_more_fuel (fuel extra d : nat) (m : string) (b : Block.t)
    (r : Block.MiningStats * Block.t) :
  Block.mineBlock fuel d m b = Some r →
  Block.mineBlock (fuel + extra) d m b = Some r.
Proof.
  unfold Block.mineBlock.
  destruct (Block.mine_loop fuel d (Block.set_miner m b)) as [b1|] eqn:E;
    [| discriminate].
  rewrite (mine_loop_more_fuel _ extra _ _ _ E). trivial.
Qed.

(** Once minePendingTransactions returns with some fuel, it returns the
    same with any larger fuel: the fuel only bounds the search. *)
Lemma minePendingTransactions_more_fuel (fuel extra : nat) (now_tx now_block : Z)
    (L L' : GSCBlockchain.t) (minerAddress : string) (forceMine : bool)
    (r : option Block.t) :
  GSCBlockchain.minePendingTransactions fuel now_tx now_block L minerAddress
    forceMine
  = GSCBlockchain.Returned r L' →
  GSCBlockchain.minePendingTransactions (fuel + extra) now_tx now_block L
    minerAddress forceMine
  = GSCBlockchain.Returned r L'.
Proof.
  unfold GSCBlockchain.minePendingTransactions.
  destruct ((length (GSCBlockchain.mempool L) =? 0)%nat && negb forceMine);
    [trivial |].
  destruct (GSCBlockchain.isMining L); [trivial |].
  destruct (GSCBlockchain.getLatestBlock (GSCBlockchain.set_isMining true L))
    as [latest|]; [| trivial].
  match goal with
  | |- context [Block.mineBlock fuel ?d ?m ?b] =>
      destruct (Block.mineBlock fuel d m b) as [res|] eqn:Hmine;
        [| discriminate];
      rewrite (mineBlock_more_fuel _ extra _ _ _ _ Hmine)
  end.
  trivial.
Qed.

(** C8: when minePendingTransactions returns a block, that block holds
    the reward transaction followed by the selected transactions, which
    are the first ten of the mempool or all of it when it is shorter;
    the mempool afterwards is the old one without those leading
    entries, every other entry still there and in order, and the block
    is the new tip.  When it returns null, after a refused append as
    after an early exit, the ledger is as it was before the call. *)
Theorem minePendingTransactions_mempool (fuel : nat) (now_tx now_block : Z)
    (L L' : GSCBlockchain.t) (minerAddress : string) (forceMine : bool)
    (r : option Block.t) :
  GSCBlockchain.minePendingTransactions fuel now_tx now_block L minerAddress
    forceMine
  = GSCBlockchain.Returned r L' →
  match r with
  | Some b =>
      let selected := firstn 10 (GSCBlockchain.mempool L) in
      (length selected ≤ 10)%nat
      ∧ tail (Block.transactions b) = selected
      ∧ GSCBlockchain.mempool L = (selected ++ GSCBlockchain.mempool L')%list
      ∧ GSCBlockchain.mempool L' = skipn 10 (GSCBlockchain.mempool L)
      ∧ GSCBlockchain.chain L' = (GSCBlockchain.chain L ++ [b])%list
  | None => L' = L
  end.
Proof.
  unfold GSCBlockchain.minePendingTransactions.
  destruct ((length (GSCBlockchain.mempool L) =? 0)%nat && negb forceMine).
  { intros [= <- <-]. reflexivity. }
  destruct (GSCBlockchain.isMining L) eqn:Hbusy.
  { intros [= <- <-]. reflexivity. }
  destruct (GSCBlockchain.getLatestBlock (GSCBlockchain.set_isMining true L))
    as [latest|]; [| discriminate].
  match goal with
  | |- context [Block.mineBlock ?f ?d ?m ?b] =>
      destruct (Block.mineBlock f d m b) as [[st mined]|] eqn:Hmine;
        [| discriminate]
  end.
  apply mineBlock_transactions in Hmine.
  unfold GSCBlockchain.addBlock.
  destruct (Block.isValid mined _).
  - intros [= <- <-]. cbv zeta.
    split; [apply firstn_le_length |].
    split; [rewrite Hmine; reflexivity |].
    cbn [GSCBlockchain.mempool GSCBlockchain.chain GSCBlockchain.set_isMining
         GSCBlockchain.set_mempool GSCBlockchain.updateBalances
         GSCBlockchain.set_balances GSCBlockchain.set_chain].
    rewrite evict_selected.
    split; [symmetry; apply firstn_skipn |].
    split; reflexivity.
  - intros [= <- <-]. apply set_isMining_same. exact Hbusy.
Qed.

Lemma mine_submitted :
  GSCBlockchain.minePendingTransactions 1 mining_time mining_time submitted
    addressM false
  = GSCBlockchain.Returned (Some paid_block) settled.
Proof. vm_compute. reflexivity. Qed.

(** Mining [submitted] at [mining_time] removes [payment], the only
    pending transaction, from the mempool. *)
Lemma minePendingTransactions_mempool_witness :
  let selected := firstn 10 (GSCBlockchain.mempool submitted) in
  (length selected ≤ 10)%nat
  ∧ tail (Block.transactions paid_block) = selected
  ∧ GSCBlockchain.mempool submitted
    = (selected ++ GSCBlockchain.mempool settled)%list
  ∧ GSCBlockchain.mempool settled = skipn 10 (GSCBlockchain.mempool submitted)
  ∧ GSCBlockchain.chain settled
    = (GSCBlockchain.chain submitted ++ [paid_block])%list.
Proof.
  apply (minePendingTransactions_mempool 1 mining_time mining_time submitted
           settled addressM false (Some paid_block)).
  vm_compute. reflexivity.
Defined.

(** The refused append does occur.  At [unlucky_time] the first hash of
    the candidate block, taken by the constructor before the Merkle
    root exists, meets the target; mineBlock returns at once, addBlock
    refuses the block, and the call answers null with the ledger as it
    was. *)
Example minePendingTransactions_refused (fuel : nat) :
  GSCBlockchain.minePendingTransactions fuel unlucky_time unlucky_time
    submitted addressM false
  = GSCBlockchain.Returned None submitted.
Proof.
  unfold GSCBlockchain.minePendingTransactions.
  cbn [GSCBlockchain.mempool submitted length Nat.eqb andb
       GSCBlockchain.isMining GSCBlockchain.set_isMining
       GSCBlockchain.getLatestBlock GSCBlockchain.chain last].
  unfold Block.mineBlock. rewrite mine_loop_unfold.
  vm_compute. reflexivity.
Qed.

(** ** The end-to-end scenario *)

(** C1 evaluated.  Everything the scenario says holds except the
    balance of the miner: the fee of 0.1 reaches [addressM] twice, once
    inside the amount of the reward transaction and once more when
    updateBalances credits the fee of the payment to the miner of the
    block, so the balance is the current reward plus 0.2. *)
Theorem end_to_end_scenario :
  GSCBlockchain.constructor 64 = Some fresh
  ∧ (GSCBlockchain.getBalance fresh genesis_address == 255)%Q
  ∧ GSCBlockchain.addTransactionToMempool fresh payment
    = (GSCBlockchain.mkResult true "Transaction added to mempool", submitted)
  ∧ length (GSCBlockchain.mempool submitted) = 1%nat
  ∧ GSCBlockchain.minePendingTransactions 1 mining_time mining_time submitted
    addressM false
    = GSCBlockchain.Returned (Some paid_block) settled
  ∧ GSCBlockchain.chain settled = (GSCBlockchain.chain fresh ++ [paid_block])%list
  ∧ Block.transactions paid_block
    = [Transaction.new mining_time "COINBASE" addressM
         (GSCBlockchain.getCurrentReward submitted + (0 + (1 # 10))) 0 None;
       payment]
  ∧ (GSCBlockchain.getBalance settled genesis_address == 255 - (10 + (1 # 10)))%Q
  ∧ (GSCBlockchain.getBalance settled addressX == 10)%Q
  ∧ (GSCBlockchain.getBalance settled addressM
     == GSCBlockchain.getCurrentReward submitted + (1 # 10) + (1 # 10))%Q
  ∧ ¬ (GSCBlockchain.getBalance settled addressM
       == GSCBlockchain.getCurrentReward submitted + (1 # 10))%Q
  ∧ length (GSCBlockchain.mempool settled) = 0%nat.
Proof.
  split; [exact constructor_fresh |].
  split; [vm_compute; reflexivity |].
  split; [vm_compute; reflexivity |].
  split; [reflexivity |].
  split; [exact mine_submitted |].
  split; [reflexivity |].
  split; [vm_compute; reflexivity |].
  split; [vm_compute; reflexivity |].
  split; [vm_compute; reflexivity |].
  split; [vm_compute; reflexivity |].
  split; [vm_compute; discriminate |].
  reflexivity.
Qed.

(** ** Resubmission of a mined transaction *)

(** The answer of addTransactionToMempool does not depend on the chain. *)
Lemma addTransactionToMempool_ignores_chain (L : GSCBlockchain.t)
    (blocks : list Block.t) (tx : Transaction.t) :
  (GSCBlockchain.addTransactionToMempool (GSCBlockchain.set_chain blocks L) tx).1
  = (GSCBlockchain.addTransactionToMempool L tx).1.
Proof.
  unfold GSCBlockchain.addTransactionToMempool,
    GSCBlockchain.isTransactionValid, GSCBlockchain.getBalance.
  cbn [GSCBlockchain.mempool GSCBlockchain.balances GSCBlockchain.set_chain].
  repeat match goal with
         | |- context [if ?c then _ else _] => destruct c
         end; reflexivity.
Qed.

(** C10: the duplicate check reads the mempool only.  In [settled] the
    transaction [payment] is part of the block at the tip of the chain
    and no longer in the mempool; submitted again, unchanged, it is
    admitted. *)
Theorem resubmission_after_inclusion :
  (In paid_block (GSCBlockchain.chain settled)
   ∧ In payment (Block.transactions paid_block)
   ∧ GSCBlockchain.mempool settled = []
   ∧ GSCBlockchain.addTransactionToMempool settled payment
     = (GSCBlockchain.mkResult true "Transaction added to mempool",
        GSCBlockchain.set_mempool [payment] settled))
  ∧ (∀ L blocks tx,
       (GSCBlockchain.addTransactionToMempool
          (GSCBlockchain.set_chain blocks L) tx).1
       = (GSCBlockchain.addTransactionToMempool L tx).1).
Proof.
  split; [| exact addTransactionToMempool_ignores_chain].
  split; [right; left; reflexivity |].
  split; [right; left; vm_compute; reflexivity |].
  split; [reflexivity |].
  vm_compute. reflexivity.
Qed.

(** * Further properties of the ledger code *)

(** ** Block.isValid *)

Lemma String_repeat_length (c : ascii) (n : nat) :
  String.length (String_repeat c n) = n.
Proof. induction n as [|n IH]; cbn; [reflexivity | rewrite IH; reflexivity]. Qed.

Lemma prefix_iff (p s : string) :
  String.prefix p s = true ↔ ∃ rest, s = p +:+ rest.
Proof.
  revert s. induction p as [|c p IH]; intros [|c' s']; cbn.
  - split; [intros _; exists ""; reflexivity | reflexivity].
  - split; [intros _; eexists; reflexivity | reflexivity].
  - split; [discriminate | intros [rest H]; discriminate].
  - destruct (Ascii.ascii_dec c c') as [<-|Hne].
    + rewrite IH. split; intros [rest H]; exists rest.
      * rewrite H. reflexivity.
      * injection H as H. exact H.
    + split; [discriminate |]. intros [rest H]. injection H as H1 _.
      congruence.
Qed.

Lemma forallb_isValid (txs : list Transaction.t) :
  forallb Transaction.isValid txs = true
  ↔ Forall (λ tx, Transaction.isValid tx = true) txs.
Proof.
  rewrite forallb_forall, List.Forall_forall. reflexivity.
Qed.

Lemma Block_isValid_true (b : Block.t) (previousBlock : option Block.t) :
  Block.isValid b previousBlock = true ↔
    Block.hash b = Block.calculateHash b
    ∧ (∀ p, previousBlock = Some p → Block.previousHash b = Block.hash p)
    ∧ leading_zeros (Block.difficulty b) (Block.hash b)
    ∧ Block.merkleRoot b = Some (Block.calculateMerkleRoot b)
    ∧ Forall (λ tx, Transaction.isValid tx = true) (Block.transactions b).
Proof.
  unfold Block.isValid, leading_zeros.
  destruct (String.eqb_spec (Block.hash b) (Block.calculateHash b)) as [Hh|Hh];
    cbn [negb]; [| split; [discriminate | tauto]].
  assert (Hprev :
    (match previousBlock with
     | Some p => negb (String.eqb (Block.previousHash b) (Block.hash p))
     | None => false
     end) = false
    ↔ ∀ p, previousBlock = Some p → Block.previousHash b = Block.hash p).
  { destruct previousBlock as [p|].
    - rewrite negb_false_iff, String.eqb_eq. split.
      + intros E p' [= <-]. exact E.
      + intros H. apply H. reflexivity.
    - split; [intros _ p; discriminate | reflexivity]. }
  destruct (match previousBlock with Some _ => _ | None => _ end);
    [split; [discriminate |]; intros (_ & H & _); apply Hprev in H; discriminate |].
  pose proof (proj1 Hprev eq_refl) as Hp.
  destruct (String.prefix _ _) eqn:Hpre; cbn [negb].
  2:{ split; [discriminate |]. intros (_ & _ & Hz & _).
      apply prefix_iff in Hz. congruence. }
  apply prefix_iff in Hpre.
  unfold Block.merkle_differs.
  destruct (Block.merkleRoot b) as [r|];
    [| split; [discriminate | intros (_ & _ & _ & H & _); discriminate]].
  destruct (String.eqb_spec r (Block.calculateMerkleRoot b)) as [->|Hr];
    cbn [negb].
  - rewrite forallb_isValid. tauto.
  - split; [discriminate |]. intros (_ & _ & _ & [= H] & _). congruence.
Qed.

(** A block passes isValid exactly when its stored hash is its content
    hash, its previous hash is the hash of the block it is checked
    against (when there is one), its hash starts with as many zeros as
    its own difficulty field says, its stored Merkle root is the
    recomputed one, and all its transactions are valid.  The index and
    the timestamp are checked only through the hash. *)
Theorem Block_isValid_iff (b : Block.t) (previousBlock : option Block.t) :
  Block.isValid b previousBlock = true ↔
    Block.hash b = Block.calculateHash b
    ∧ (∀ p, previousBlock = Some p → Block.previousHash b = Block.hash p)
    ∧ leading_zeros (Block.difficulty b) (Block.hash b)
    ∧ Block.merkleRoot b = Some (Block.calculateMerkleRoot b)
    ∧ Forall (λ tx, Transaction.isValid tx = true) (Block.transactions b).
Proof. exact (Block_isValid_true b previousBlock). Qed.

Lemma calculateMerkleRoot_transactions (b1 b2 : Block.t) :
  Block.transactions b1 = Block.transactions b2 →
  Block.calculateMerkleRoot b1 = Block.calculateMerkleRoot b2.
Proof. unfold Block.calculateMerkleRoot. intros ->. reflexivity. Qed.

(** Constructing, mining, validating.  Take a block whose stored Merkle
    root is the one of its transactions, as the constructor leaves it.
    Once mineBlock has returned from mining it at its own difficulty
    with a nonce other than the initial one, the block passes isValid
    against any block whose hash is its previous hash, provided its
    transactions are valid. *)
Theorem mined_block_isValid (fuel : nat) (m : string) (b b' p : Block.t)
    (st : Block.MiningStats) :
  Block.merkleRoot b = Some (Block.calculateMerkleRoot b) →
  Forall (λ tx, Transaction.isValid tx = true) (Block.transactions b) →
  Block.previousHash b = Block.hash p →
  Block.mineBlock fuel (Block.difficulty b) m b = Some (st, b') →
  Block.nonce b' ≠ Block.nonce b →
  Block.isValid b' (Some p) = true.
Proof.
  intros Hroot Htxs Hprev Hmine Hnonce.
  pose proof (mineBlock_returns _ _ _ _ _ _ Hmine) as (Hz & _ & _ & _ & Hhash).
  unfold Block.mineBlock in Hmine.
  destruct (Block.mine_loop fuel (Block.difficulty b) (Block.set_miner m b))
    as [b1|] eqn:E; [| discriminate].
  injection Hmine as _ <-.
  pose proof (mine_loop_frame _ _ _ _ E)
    as (_ & _ & Ht & Hp & Hd & Hm & _).
  cbn in Ht, Hp, Hd, Hm.
  apply Block_isValid_true. split; [apply Hhash; left; exact Hnonce |].
  split; [intros p' [= <-]; congruence |].
  split; [rewrite Hd; exact Hz |].
  split.
  - rewrite Hm, Hroot. f_equal. apply calculateMerkleRoot_transactions.
    symmetry. exact Ht.
  - rewrite Ht. exact Htxs.
Qed.

Lemma mined_block_isValid_witness :
  Block.isValid paid_block
    (Some (default paid_block (last (GSCBlockchain.chain fresh)))) = true.
Proof.
  apply (mined_block_isValid 1 addressM paid_candidate paid_block _
           (Block.mkStats 1 (Block.hash paid_block))).
  - vm_compute. reflexivity.
  - constructor; [vm_compute; reflexivity |].
    constructor; [vm_compute; reflexivity | constructor].
  - vm_compute. reflexivity.
  - vm_compute. reflexivity.
  - vm_compute. discriminate.
Defined.

(** ** isChainValid *)

Lemma isChainValid_from_pairs (prev : Block.t) (rest : list Block.t) :
  GSCBlockchain.isChainValid_from prev rest = true ↔
  ∀ (i : nat) p b, (prev :: rest) !! i = Some p → (prev :: rest) !! S i = Some b →
            Block.isValid b (Some p) = true.
Proof.
  revert prev. induction rest as [|c rest IH]; intros prev; cbn.
  - split; [| reflexivity]. intros _ i p b _ H. destruct i; discriminate.
  - destruct (Block.isValid c (Some prev)) eqn:E; cbn.
    + rewrite IH. split.
      * intros H [|i] p b Hp Hb.
        { injection Hp as <-. injection Hb as <-. exact E. }
        { exact (H i p b Hp Hb). }
      * intros H i p b Hp Hb. exact (H (S i) p b Hp Hb).
    + split; [discriminate |]. intros H.
      rewrite <- E. exact (H O prev c eq_refl eq_refl).
Qed.

Lemma isChainValid_pairs (L : GSCBlockchain.t) :
  GSCBlockchain.isChainValid L = true ↔
  ∀ (i : nat) p b, GSCBlockchain.chain L !! i = Some p →
            GSCBlockchain.chain L !! S i = Some b →
            Block.isValid b (Some p) = true.
Proof.
  unfold GSCBlockchain.isChainValid.
  destruct (GSCBlockchain.chain L) as [|b0 rest].
  - split; [| reflexivity]. intros _ i p b H. discriminate.
  - apply isChainValid_from_pairs.
Qed.

(** The chain is valid exactly when every block from index 1 on passes
    isValid against the block just before it.  Block 0 is checked
    against nothing and is not checked itself: a chain of one block is
    valid whatever that block holds. *)
Theorem isChainValid_iff (L : GSCBlockchain.t) :
  (GSCBlockchain.isChainValid L = true ↔
   ∀ (i : nat) p b, GSCBlockchain.chain L !! i = Some p →
             GSCBlockchain.chain L !! S i = Some b →
             Block.isValid b (Some p) = true)
  ∧ ((length (GSCBlockchain.chain L) ≤ 1)%nat →
     GSCBlockchain.isChainValid L = true).
Proof.
  split; [exact (isChainValid_pairs L) |].
  intros Hlen. apply isChainValid_pairs. intros i p b Hp Hb.
  apply lookup_lt_Some in Hb. lia.
Qed.

Lemma isChainValid_iff_witness :
  GSCBlockchain.isChainValid
    (GSCBlockchain.set_chain [lucky_candidate] fresh) = true.
Proof.
  apply (proj2 (isChainValid_iff
                  (GSCBlockchain.set_chain [lucky_candidate] fresh))).
  cbn. lia.
Defined.

Lemma isChainValid_snoc (L L' : GSCBlockchain.t) (b : Block.t) :
  GSCBlockchain.isChainValid L = true →
  Block.isValid b (last (GSCBlockchain.chain L)) = true →
  GSCBlockchain.chain L' = (GSCBlockchain.chain L ++ [b])%list →
  GSCBlockchain.isChainValid L' = true.
Proof.
  intros Hvalid E Hchain. apply isChainValid_pairs. rewrite Hchain.
  intros i p c Hp Hc.
  destruct (decide (S i < length (GSCBlockchain.chain L))%nat) as [Hlt|Hge].
  - rewrite lookup_app_l in Hp by lia. rewrite lookup_app_l in Hc by lia.
    exact (proj1 (isChainValid_pairs L) Hvalid i p c Hp Hc).
  - pose proof (lookup_lt_Some _ _ _ Hc) as Hi. rewrite length_app in Hi.
    cbn in Hi.
    assert (Hi' : S i = length (GSCBlockchain.chain L)) by lia.
    rewrite Hi', list_lookup_middle in Hc by reflexivity.
    injection Hc as <-.
    rewrite lookup_app_l in Hp by lia.
    replace (last (GSCBlockchain.chain L)) with (Some p) in E; [exact E |].
    rewrite last_lookup, <- Hi'. cbn. symmetry. exact Hp.
Qed.

(** Appending keeps the chain valid: when isChainValid holds and
    addBlock accepts a block, isChainValid holds of the longer chain. *)
Theorem addBlock_keeps_chain_valid (L L' : GSCBlockchain.t) (b : Block.t) :
  GSCBlockchain.isChainValid L = true →
  GSCBlockchain.addBlock L b = (true, L') →
  GSCBlockchain.isChainValid L' = true.
Proof.
  intros Hvalid. unfold GSCBlockchain.addBlock, GSCBlockchain.getLatestBlock.
  destruct (Block.isValid b (last (GSCBlockchain.chain L))) eqn:E;
    [| discriminate].
  intros [= <-]. apply (isChainValid_snoc L _ b Hvalid E). reflexivity.
Qed.

Lemma addBlock_keeps_chain_valid_witness :
  GSCBlockchain.isChainValid
    (GSCBlockchain.addBlock fresh paid_block).2 = true.
Proof.
  apply (addBlock_keeps_chain_valid fresh _ paid_block).
  - reflexivity.
  - vm_compute. reflexivity.
Defined.

(** Overwriting the stored hash of one block of a valid chain with a
    different text makes isChainValid fail as soon as the chain has a
    second block; in a chain of that one block alone it goes unnoticed. *)
Theorem isChainValid_detects_hash_change (L : GSCBlockchain.t)
    (pre post : list Block.t) (b : Block.t) (h' : string) :
  GSCBlockchain.chain L = (pre ++ b :: post)%list →
  GSCBlockchain.isChainValid L = true →
  h' ≠ Block.hash b →
  (GSCBlockchain.isChainValid
     (GSCBlockchain.set_chain (pre ++ Block.set_hash h' b :: post)%list L)
   = false
   ↔ pre ≠ [] ∨ post ≠ []).
Proof.
  intros Hchain Hvalid Hh.
  pose proof (proj1 (isChainValid_pairs L) Hvalid) as Hpairs.
  rewrite Hchain in Hpairs.
  split.
  - intros Hfalse. destruct pre as [|p0 pre]; [| left; discriminate].
    destruct post as [|c post]; [| right; discriminate].
    cbn in Hfalse. discriminate.
  - intros Hlen. apply not_true_iff_false. intros Htrue.
    pose proof (proj1 (isChainValid_pairs _) Htrue) as Hpairs'.
    cbn [GSCBlockchain.chain GSCBlockchain.set_chain] in Hpairs'.
    destruct (nil_or_length_pos pre) as [-> | Hpre].
    + destruct post as [|c post]; [destruct Hlen; congruence |].
      pose proof (Hpairs O b c eq_refl eq_refl) as Hc.
      pose proof (Hpairs' O _ c eq_refl eq_refl) as Hc'.
      apply Block_isValid_true in Hc, Hc'.
      destruct Hc as (_ & Hp & _). destruct Hc' as (_ & Hp' & _).
      specialize (Hp _ eq_refl). specialize (Hp' _ eq_refl).
      cbn in Hp'. congruence.
    + destruct (lookup_lt_is_Some_2 pre (length pre - 1)) as [p Hp]; [lia |].
      assert (E1 : (pre ++ b :: post)%list !! (length pre - 1)%nat = Some p).
      { rewrite lookup_app_l by lia. exact Hp. }
      assert (E2 : (pre ++ b :: post)%list !! S (length pre - 1) = Some b).
      { replace (S (length pre - 1)) with (length pre) by lia.
        apply list_lookup_middle. reflexivity. }
      assert (E1' : (pre ++ Block.set_hash h' b :: post)%list !! (length pre - 1)%nat
                    = Some p).
      { rewrite lookup_app_l by lia. exact Hp. }
      assert (E2' : (pre ++ Block.set_hash h' b :: post)%list !! S (length pre - 1)
                    = Some (Block.set_hash h' b)).
      { replace (S (length pre - 1)) with (length pre) by lia.
        apply list_lookup_middle. reflexivity. }
      pose proof (Hpairs _ _ _ E1 E2) as Hb.
      pose proof (Hpairs' _ _ _ E1' E2') as Hb'.
      apply Block_isValid_true in Hb, Hb'.
      destruct Hb as (Hhash & _). destruct Hb' as (Hhash' & _).
      cbn in Hhash'. unfold Block.calculateHash in Hhash, Hhash'.
      cbn in Hhash'. congruence.
Qed.

Lemma isChainValid_detects_hash_change_witness :
  GSCBlockchain.isChainValid
    (GSCBlockchain.set_chain
       (GSCBlockchain.chain fresh ++ [Block.set_hash "00000" paid_block])%list
       settled)
  = false.
Proof.
  apply (isChainValid_detects_hash_change settled (GSCBlockchain.chain fresh)
           [] paid_block "00000").
  - reflexivity.
  - vm_compute. reflexivity.
  - vm_compute. discriminate.
  - left. discriminate.
Defined.

(** ** updateBalances *)











(** ** What a successful minePendingTransactions has done *)

Lemma set_isMining_mined (L : GSCBlockchain.t) (blocks : list Block.t)
    (pool : list Transaction.t) :
  GSCBlockchain.isMining L = false →
  GSCBlockchain.set_isMining false
    (GSCBlockchain.set_mempool pool
       (GSCBlockchain.updateBalances
          (GSCBlockchain.set_chain blocks (GSCBlockchain.set_isMining true L))))
  = GSCBlockchain.set_mempool pool
      (GSCBlockchain.updateBalances (GSCBlockchain.set_chain blocks L)).
Proof. destruct L; cbn; intros ->; reflexivity. Qed.

Lemma mineBlock_frame (fuel d : nat) (m : string) (b b' : Block.t)
    (st : Block.MiningStats) :
  Block.mineBlock fuel d m b = Some (st, b') →
  Block.index b' = Block.index b
  ∧ Block.timestamp b' = Block.timestamp b
  ∧ Block.transactions b' = Block.transactions b
  ∧ Block.previousHash b' = Block.previousHash b
  ∧ Block.difficulty b' = Block.difficulty b
  ∧ Block.merkleRoot b' = Block.merkleRoot b
  ∧ Block.miner b' = m
  ∧ Block.reward b' = Block.reward b.
Proof.
  unfold Block.mineBlock.
  destruct (Block.mine_loop fuel d (Block.set_miner m b)) as [b1|] eqn:E;
    [| discriminate].
  intros [= _ <-]. exact (mine_loop_frame _ _ _ _ E).
Qed.

Lemma minePendingTransactions_success (fuel : nat) (now_tx now_block : Z)
    (L L' : GSCBlockchain.t) (minerAddress : string) (forceMine : bool)
    (b : Block.t) :
  GSCBlockchain.minePendingTransactions fuel now_tx now_block L minerAddress
    forceMine
  = GSCBlockchain.Returned (Some b) L' →
  ∃ tip,
    GSCBlockchain.getLatestBlock L = Some tip
    ∧ GSCBlockchain.isMining L = false
    ∧ Block.transactions b
      = Transaction.new now_tx "COINBASE" minerAddress
          (GSCBlockchain.getCurrentReward L
           + fold_left (λ sum tx, sum + Transaction.fee tx)
                       (firstn 10 (GSCBlockchain.mempool L)) 0)%Q 0 None
        :: firstn 10 (GSCBlockchain.mempool L)
    ∧ Block.index b = Z.of_nat (length (GSCBlockchain.chain L))
    ∧ Block.previousHash b = Block.hash tip
    ∧ Block.miner b = minerAddress
    ∧ Block.reward b = GSCBlockchain.getCurrentReward L
    ∧ Block.difficulty b = GSCBlockchain.difficulty L
    ∧ Block.isValid b (Some tip) = true
    ∧ L' = GSCBlockchain.set_mempool (skipn 10 (GSCBlockchain.mempool L))
             (GSCBlockchain.updateBalances
                (GSCBlockchain.set_chain (GSCBlockchain.chain L ++ [b]) L)).
Proof.
  unfold GSCBlockchain.minePendingTransactions.
  destruct ((length (GSCBlockchain.mempool L) =? 0)%nat && negb forceMine);
    [discriminate |].
  destruct (GSCBlockchain.isMining L) eqn:Hbusy; [discriminate |].
  change (GSCBlockchain.getLatestBlock (GSCBlockchain.set_isMining true L))
    with (GSCBlockchain.getLatestBlock L).
  destruct (GSCBlockchain.getLatestBlock L) as [tip|] eqn:Htip;
    [| discriminate].
  match goal with
  | |- context [Block.mineBlock ?f ?d ?m ?c] =>
      destruct (Block.mineBlock f d m c) as [[st mined]|] eqn:Hmine;
        [| discriminate]
  end.
  apply mineBlock_frame in Hmine.
  destruct Hmine as (Hi & _ & Ht & Hp & Hd & _ & Hm & Hr).
  unfold GSCBlockchain.addBlock.
  change (GSCBlockchain.getLatestBlock (GSCBlockchain.set_isMining true L))
    with (GSCBlockchain.getLatestBlock L).
  rewrite Htip.
  destruct (Block.isValid mined (Some tip)) eqn:Hvalid; [| discriminate].
  intros [= <- <-]. exists tip.
  split; [reflexivity |]. split; [reflexivity |].
  split; [exact Ht |]. split; [exact Hi |]. split; [exact Hp |].
  split; [exact Hm |]. split; [exact Hr |]. split; [exact Hd |].
  split; [exact Hvalid |].
  cbn [GSCBlockchain.mempool GSCBlockchain.chain GSCBlockchain.set_isMining
       GSCBlockchain.updateBalances GSCBlockchain.set_balances
       GSCBlockchain.set_chain].
  rewrite evict_selected.
  rewrite <- (set_isMining_mined L _ _ Hbusy). reflexivity.
Qed.

(** ** Pending costs, and a mining run that returns null *)

Lemma isValid_amounts (tx : Transaction.t) :
  Transaction.isValid tx = true →
  (0 < Transaction.amount tx)%Q ∧ (0 <= Transaction.fee tx)%Q.
Proof.
  unfold Transaction.isValid.
  destruct (falsy_str _ || falsy_str _); [discriminate |].
  destruct (Qle_bool (Transaction.amount tx) 0) eqn:Ha; [discriminate |].
  destruct (Qlt_bool (Transaction.fee tx) 0) eqn:Hf; [discriminate |].
  intros _. split; [apply Qle_bool_false, Ha | apply Qlt_bool_false, Hf].
Qed.

Lemma pending_cost_nonneg (a : string) (pool : list Transaction.t) :
  Forall (λ tx, Transaction.isValid tx = true) pool →
  (0 <= pending_cost a pool)%Q.
Proof.
  induction 1 as [|tx pool Htx _ IH]; cbn; [lra |].
  destruct (isValid_amounts tx Htx) as [Ha Hf].
  destruct (String.eqb _ a); unfold cost; lra.
Qed.

Lemma minePendingTransactions_null (fuel : nat) (now_tx now_block : Z)
    (L L' : GSCBlockchain.t) (minerAddress : string) (forceMine : bool) :
  GSCBlockchain.minePendingTransactions fuel now_tx now_block L minerAddress
    forceMine
  = GSCBlockchain.Returned None L' →
  L' = L.
Proof.
  unfold GSCBlockchain.minePendingTransactions.
  destruct ((length (GSCBlockchain.mempool L) =? 0)%nat && negb forceMine);
    [intros [= <-]; reflexivity |].
  destruct (GSCBlockchain.isMining L) eqn:Hbusy; [intros [= <-]; reflexivity |].
  destruct (GSCBlockchain.getLatestBlock _); [| discriminate].
  match goal with
  | |- context [Block.mineBlock ?f ?d ?m ?c] =>
      destruct (Block.mineBlock f d m c) as [[st mined]|]; [| discriminate]
  end.
  unfold GSCBlockchain.addBlock. destruct (Block.isValid mined _);
    [discriminate |].
  intros [= <-]. apply set_isMining_same. exact Hbusy.
Qed.

(** ** What submission keeps, in binary64 *)

(** Submission keeps the mempool covered: if every pending transaction
    is valid and what its sender has pending, added up as the code adds
    it, is within the sender's balance, the same holds after
    addTransactionToMempool, whether it admitted the transaction or
    refused it. *)
Theorem addTransactionToMempool_keeps_covered (L L' : Binary64.GSCBlockchain.t)
    (tx : Binary64.Transaction.t) (r : Binary64.GSCBlockchain.Result) :
  covered L →
  Binary64.GSCBlockchain.addTransactionToMempool L tx = (r, L') →
  covered L'.
Proof.
  intros Hcov. unfold Binary64.GSCBlockchain.addTransactionToMempool.
  rewrite isTransactionValid_binary64.
  destruct (Binary64.Transaction.isValid tx) eqn:Htx; cbn [andb negb];
    [| intros [= _ <-]; exact Hcov].
  destruct (Binary64.leb_value _ _) eqn:Hle; cbn [negb];
    [| intros [= _ <-]; exact Hcov].
  assert (Hnew :
    covered (Binary64.GSCBlockchain.set_mempool
               (Binary64.GSCBlockchain.mempool L ++ [tx]) L)).
  { unfold covered.
    cbn [Binary64.GSCBlockchain.mempool Binary64.GSCBlockchain.set_mempool].
    assert (Hone : ∀ p,
      Binary64.Transaction.isValid p = true
      ∧ Binary64.leb_value
          (rounded_pending (Binary64.Transaction.sender p)
                           (Binary64.GSCBlockchain.mempool L))
          (Binary64.GSCBlockchain.getBalance L (Binary64.Transaction.sender p))
        = true
      ∨ p = tx →
      Binary64.Transaction.isValid p = true
      ∧ Binary64.leb_value
          (rounded_pending (Binary64.Transaction.sender p)
                           (Binary64.GSCBlockchain.mempool L ++ [tx]))
          (Binary64.GSCBlockchain.getBalance
             (Binary64.GSCBlockchain.set_mempool
                (Binary64.GSCBlockchain.mempool L ++ [tx]) L)
             (Binary64.Transaction.sender p)) = true).
    { intros p Hp.
      change (Binary64.GSCBlockchain.getBalance
                (Binary64.GSCBlockchain.set_mempool _ L))
        with (Binary64.GSCBlockchain.getBalance L).
      rewrite rounded_pending_snoc.
      destruct (String.eqb_spec (Binary64.Transaction.sender tx)
                                (Binary64.Transaction.sender p)) as [E|Hne].
      - rewrite <- E. split; [| exact Hle].
        destruct Hp as [[Hp _]| ->]; [exact Hp | exact Htx].
      - destruct Hp as [Hp| ->]; [exact Hp | congruence]. }
    apply Forall_app. split.
    - eapply Forall_impl; [exact Hcov |]. intros p Hp. apply Hone. left.
      exact Hp.
    - constructor; [| constructor]. apply Hone. right. reflexivity. }
  destruct (Binary64.GSCBlockchain.getBalance L _) as [available|name].
  - destruct (PrimFloat.ltb available _); [intros [= _ <-]; exact Hcov |].
    destruct (existsb _ _); intros [= _ <-]; [exact Hcov | exact Hnew].
  - destruct (existsb _ _); intros [= _ <-]; [exact Hcov | exact Hnew].
Qed.

Lemma addTransactionToMempool_keeps_covered_witness :
  covered opened_with_payment.
Proof.
  apply (addTransactionToMempool_keeps_covered opened opened_with_payment
           payment64
           (Binary64.GSCBlockchain.mkResult true "Transaction added to mempool")).
  - constructor.
  - vm_compute. reflexivity.
Defined.

(** ** What admission makes of NaN and of inherited names *)

Lemma is_nan_eq (x : float) : PrimFloat.is_nan x = true → x = PrimFloat.nan.
Proof.
  intros H. apply is_nan_Prim2SF in H. apply Prim2SF_inj. rewrite H.
  reflexivity.
Qed.

Lemma add_nan_r (x : float) : PrimFloat.add x PrimFloat.nan = PrimFloat.nan.
Proof.
  apply Prim2SF_inj. rewrite FloatAxioms.add_spec.
  change (Prim2SF PrimFloat.nan) with S754_nan.
  destruct (Prim2SF x); reflexivity.
Qed.

Lemma add_nan_l (x : float) : PrimFloat.add PrimFloat.nan x = PrimFloat.nan.
Proof.
  apply Prim2SF_inj. rewrite FloatAxioms.add_spec.
  change (Prim2SF PrimFloat.nan) with S754_nan. reflexivity.
Qed.

Lemma leb_value_nan (v : Binary64.value) :
  Binary64.leb_value PrimFloat.nan v = false.
Proof.
  destruct v as [y|name]; [| reflexivity]. cbn [Binary64.leb_value].
  rewrite FloatAxioms.leb_spec. reflexivity.
Qed.

(** A transaction whose amount or fee is NaN passes isValid, yet the
    mempool does not take it: the sum that admission compares with the
    balance is NaN then, and no comparison with NaN holds.  Nor is a
    transaction taken whose sender reads a member of Object.prototype
    as its balance.  Both are answered 'Invalid transaction' and leave
    the ledger as it is. *)
Theorem addTransactionToMempool_refuses_NaN (L : Binary64.GSCBlockchain.t)
    (tx : Binary64.Transaction.t) :
  PrimFloat.is_nan (Binary64.Transaction.amount tx) = true
  ∨ PrimFloat.is_nan (Binary64.Transaction.fee tx) = true
  ∨ (∃ name, Binary64.GSCBlockchain.getBalance
               L (Binary64.Transaction.sender tx)
             = Binary64.Inherited name) →
  Binary64.GSCBlockchain.addTransactionToMempool L tx
  = (Binary64.GSCBlockchain.mkResult false "Invalid transaction", L).
Proof.
  intros H. unfold Binary64.GSCBlockchain.addTransactionToMempool.
  rewrite isTransactionValid_binary64.
  replace (Binary64.leb_value _ _) with false;
    [rewrite andb_false_r; reflexivity |].
  symmetry. destruct H as [Ha | [Hf | [name Hb]]].
  - rewrite (is_nan_eq _ Ha), add_nan_r, add_nan_l. apply leb_value_nan.
  - rewrite (is_nan_eq _ Hf), add_nan_r. apply leb_value_nan.
  - rewrite Hb. reflexivity.
Qed.

Lemma addTransactionToMempool_refuses_NaN_witness :
  Binary64.GSCBlockchain.addTransactionToMempool opened nan_payment
  = (Binary64.GSCBlockchain.mkResult false "Invalid transaction", opened).
Proof.
  apply (addTransactionToMempool_refuses_NaN opened nan_payment).
  left. reflexivity.
Defined.

(** ** The block minePendingTransactions returns *)



(** ** What the statistics report after mining *)

(** A mined block leaves every configuration field and the recorded
    current supply as they were: getBlockchainStats reports one block
    more, a mempool shorter by the selected transactions, and the same
    currentSupply as before, although the block has paid out a
    reward; a chain that was valid is reported valid. *)
Theorem getBlockchainStats_after_mining (fuel : nat) (now_tx now_block : Z)
    (L L' : GSCBlockchain.t) (minerAddress : string) (forceMine : bool)
    (b : Block.t) :
  GSCBlockchain.minePendingTransactions fuel now_tx now_block L minerAddress
    forceMine
  = GSCBlockchain.Returned (Some b) L' →
  let before := GSCBlockchain.getBlockchainStats L in
  let after := GSCBlockchain.getBlockchainStats L' in
  GSCBlockchain.stat_totalBlocks after
  = S (GSCBlockchain.stat_totalBlocks before)
  ∧ GSCBlockchain.stat_mempoolSize after
    = (GSCBlockchain.stat_mempoolSize before
       - Nat.min 10 (GSCBlockchain.stat_mempoolSize before))%nat
  ∧ GSCBlockchain.stat_currentSupply after
    = GSCBlockchain.stat_currentSupply before
  ∧ GSCBlockchain.stat_totalSupply after
    = GSCBlockchain.stat_totalSupply before
  ∧ GSCBlockchain.stat_difficulty after
    = GSCBlockchain.stat_difficulty before
  ∧ GSCBlockchain.stat_halvingInterval after
    = GSCBlockchain.stat_halvingInterval before
  ∧ GSCBlockchain.isMining L' = GSCBlockchain.isMining L
  ∧ (GSCBlockchain.stat_isChainValid before = true →
     GSCBlockchain.stat_isChainValid after = true).
Proof.
  intros Hrun. apply minePendingTransactions_success in Hrun.
  destruct Hrun as (tip & Htip & _ & _ & _ & _ & _ & _ & _ & Hvalid & ->).
  cbv zeta. unfold GSCBlockchain.getBlockchainStats.
  cbn [GSCBlockchain.stat_totalBlocks GSCBlockchain.stat_mempoolSize
       GSCBlockchain.stat_currentSupply GSCBlockchain.stat_totalSupply
       GSCBlockchain.stat_difficulty GSCBlockchain.stat_halvingInterval
       GSCBlockchain.stat_isChainValid
       GSCBlockchain.chain GSCBlockchain.mempool GSCBlockchain.currentSupply
       GSCBlockchain.totalSupply GSCBlockchain.difficulty
       GSCBlockchain.halvingInterval GSCBlockchain.isMining
       GSCBlockchain.set_mempool GSCBlockchain.updateBalances
       GSCBlockchain.set_balances GSCBlockchain.set_chain].
  split; [rewrite length_app; cbn; lia |].
  split; [rewrite length_skipn; lia |].
  repeat (split; [reflexivity |]).
  intros Hok. unfold GSCBlockchain.getLatestBlock in Htip.
  eapply (isChainValid_snoc L _ b Hok); [rewrite Htip; exact Hvalid |].
  reflexivity.
Qed.

Lemma getBlockchainStats_after_mining_witness :
  let before := GSCBlockchain.getBlockchainStats submitted in
  let after := GSCBlockchain.getBlockchainStats settled in
  GSCBlockchain.stat_totalBlocks after
  = S (GSCBlockchain.stat_totalBlocks before)
  ∧ GSCBlockchain.stat_mempoolSize after
    = (GSCBlockchain.stat_mempoolSize before
       - Nat.min 10 (GSCBlockchain.stat_mempoolSize before))%nat
  ∧ GSCBlockchain.stat_currentSupply after
    = GSCBlockchain.stat_currentSupply before
  ∧ GSCBlockchain.stat_totalSupply after
    = GSCBlockchain.stat_totalSupply before
  ∧ GSCBlockchain.stat_difficulty after
    = GSCBlockchain.stat_difficulty before
  ∧ GSCBlockchain.stat_halvingInterval after
    = GSCBlockchain.stat_halvingInterval before
  ∧ GSCBlockchain.isMining settled = GSCBlockchain.isMining submitted
  ∧ (GSCBlockchain.stat_isChainValid before = true →
     GSCBlockchain.stat_isChainValid after = true).
Proof.
  apply (getBlockchainStats_after_mining 1 mining_time mining_time submitted
           settled addressM false paid_block).
  vm_compute. reflexivity.
Defined.

(** ** addTransactionToMempool *)

Lemma existsb_txId_true (pool : list Transaction.t) (id : string) :
  existsb (λ tx, String.eqb (Transaction.txId tx) id) pool = true
  ↔ In id (map Transaction.txId pool).
Proof.
  rewrite existsb_exists, in_map_iff. split.
  - intros (x & Hin & E). apply String.eqb_eq in E. exists x. tauto.
  - intros (x & E & Hin). exists x. split; [exact Hin |].
    apply String.eqb_eq. exact E.
Qed.

(** What a submission does to the ledger.  A refusal leaves the ledger
    as it was.  An admission happens only for a valid transaction whose
    identifier no pending transaction carries, and it appends the
    transaction at the end of the mempool and changes nothing else; so
    identifiers that were pairwise distinct in the mempool stay so. *)
Theorem addTransactionToMempool_result (L L' : GSCBlockchain.t)
    (tx : Transaction.t) (r : GSCBlockchain.Result) :
  GSCBlockchain.addTransactionToMempool L tx = (r, L') →
  ((GSCBlockchain.success r = false ∧ L' = L)
   ∨ (GSCBlockchain.success r = true
      ∧ L' = GSCBlockchain.set_mempool (GSCBlockchain.mempool L ++ [tx]) L
      ∧ Transaction.isValid tx = true
      ∧ ¬ In (Transaction.txId tx)
             (map Transaction.txId (GSCBlockchain.mempool L))))
  ∧ (NoDup (map Transaction.txId (GSCBlockchain.mempool L)) →
     NoDup (map Transaction.txId (GSCBlockchain.mempool L'))).
Proof.
  unfold GSCBlockchain.addTransactionToMempool.
  rewrite isTransactionValid_rule.
  destruct (Transaction.isValid tx) eqn:Htx; cbn [andb negb];
    [| intros [= <- <-]; split; [left; split; reflexivity | trivial]].
  destruct (Qle_bool _ _); cbn [negb];
    [| intros [= <- <-]; split; [left; split; reflexivity | trivial]].
  destruct (Qlt_bool _ _);
    [intros [= <- <-]; split; [left; split; reflexivity | trivial] |].
  destruct (existsb _ _) eqn:Hdup;
    intros [= <- <-]; [split; [left; split; reflexivity | trivial] |].
  assert (Hnew : ¬ In (Transaction.txId tx)
                      (map Transaction.txId (GSCBlockchain.mempool L))).
  { rewrite <- existsb_txId_true, Hdup. discriminate. }
  split.
  - right. split; [reflexivity |]. split; [reflexivity |].
    split; [reflexivity | exact Hnew].
  - intros Hnd. cbn [GSCBlockchain.mempool GSCBlockchain.set_mempool].
    rewrite map_app. cbn [map]. apply NoDup_app. split; [exact Hnd |].
    split; [| apply NoDup_singleton].
    intros id Hin Hin'. apply list_elem_of_In in Hin.
    apply list_elem_of_singleton in Hin'. subst id. exact (Hnew Hin).
Qed.

Lemma addTransactionToMempool_result_witness :
  ((GSCBlockchain.success
      (GSCBlockchain.mkResult true "Transaction added to mempool") = false
    ∧ submitted = fresh)
   ∨ (GSCBlockchain.success
        (GSCBlockchain.mkResult true "Transaction added to mempool") = true
      ∧ submitted
        = GSCBlockchain.set_mempool (GSCBlockchain.mempool fresh ++ [payment])
            fresh
      ∧ Transaction.isValid payment = true
      ∧ ¬ In (Transaction.txId payment)
             (map Transaction.txId (GSCBlockchain.mempool fresh))))
  ∧ (NoDup (map Transaction.txId (GSCBlockchain.mempool fresh)) →
     NoDup (map Transaction.txId (GSCBlockchain.mempool submitted))).
Proof.
  apply (addTransactionToMempool_result fresh submitted payment).
  vm_compute. reflexivity.
Defined.

(** The balance test of addTransactionToMempool never decides.  When
    every pending transaction is valid, a submission is answered with
    one of three messages, never with the one for an insufficient
    balance: a transaction that cannot be paid for has already been
    refused as invalid by isTransactionValid. *)
Theorem addTransactionToMempool_messages (L L' : GSCBlockchain.t)
    (tx : Transaction.t) (r : GSCBlockchain.Result) :
  Forall (λ p, Transaction.isValid p = true) (GSCBlockchain.mempool L) →
  GSCBlockchain.addTransactionToMempool L tx = (r, L') →
  GSCBlockchain.message r = "Invalid transaction"
  ∨ GSCBlockchain.message r = "Transaction already in mempool"
  ∨ GSCBlockchain.message r = "Transaction added to mempool".
Proof.
  intros Hpool. unfold GSCBlockchain.addTransactionToMempool.
  rewrite isTransactionValid_rule.
  destruct (Transaction.isValid tx) eqn:Htx; cbn [andb negb];
    [| intros [= <- _]; left; reflexivity].
  destruct (Qle_bool _ _) eqn:Hle; cbn [negb];
    [| intros [= <- _]; left; reflexivity].
  apply Qle_bool_iff in Hle.
  pose proof (pending_cost_nonneg (Transaction.sender tx) _ Hpool) as Hpos.
  replace (Qlt_bool _ _) with false.
  2:{ symmetry. apply Qlt_bool_false. fold (cost tx). lra. }
  destruct (existsb _ _); intros [= <- _]; [right; left | right; right];
    reflexivity.
Qed.

Lemma addTransactionToMempool_messages_witness :
  GSCBlockchain.message
    (GSCBlockchain.addTransactionToMempool submitted second_payment).1
  = "Invalid transaction"
  ∨ GSCBlockchain.message
      (GSCBlockchain.addTransactionToMempool submitted second_payment).1
    = "Transaction already in mempool"
  ∨ GSCBlockchain.message
      (GSCBlockchain.addTransactionToMempool submitted second_payment).1
    = "Transaction added to mempool".
Proof.
  apply (addTransactionToMempool_messages submitted
           (GSCBlockchain.addTransactionToMempool submitted second_payment).2
           second_payment).
  - constructor; [vm_compute; reflexivity | constructor].
  - apply surjective_pairing.
Defined.

(** ** Queries *)

Lemma rev_lookup {A : Type} (l : list A) (i : nat) :
  (i < length l)%nat → rev l !! i = l !! (length l - S i)%nat.
Proof. intros H. rewrite rev_alt. apply (reverse_lookup l i H). Qed.

(** getRecentBlocks with a positive limit answers the last [limit]
    blocks, or all of them when the chain is shorter, newest first.
    With limit 0 it answers the whole chain, newest first, not the
    empty list: [slice(-0)] is [slice(0)]. *)
Theorem getRecentBlocks_spec (L : GSCBlockchain.t) (limit : Z) :
  (0 < limit →
   length (GSCBlockchain.getRecentBlocks L limit)
   = Nat.min (Z.to_nat limit) (length (GSCBlockchain.chain L))
   ∧ ∀ i : nat, (i < length (GSCBlockchain.getRecentBlocks L limit))%nat →
       GSCBlockchain.getRecentBlocks L limit !! i
       = GSCBlockchain.chain L !! (length (GSCBlockchain.chain L) - 1 - i)%nat)
  ∧ GSCBlockchain.getRecentBlocks L 0 = rev (GSCBlockchain.chain L).
Proof.
  unfold GSCBlockchain.getRecentBlocks, GSCBlockchain.Array_slice_from.
  split; [| cbn; rewrite Z.min_l by lia; reflexivity].
  intros Hpos.
  set (chain := GSCBlockchain.chain L).
  destruct (Z.ltb_spec (- limit) 0) as [_|]; [| lia].
  set (k := Z.to_nat (Z.max (Z.of_nat (length chain) + - limit) 0)).
  assert (Hk : (k = length chain - Nat.min (Z.to_nat limit) (length chain))%nat).
  { unfold k. lia. }
  assert (Hlen : length (rev (skipn k chain))
                 = Nat.min (Z.to_nat limit) (length chain)).
  { rewrite length_rev, length_skipn. lia. }
  split; [exact Hlen |].
  intros i Hi. rewrite Hlen in Hi.
  rewrite rev_lookup by (rewrite length_skipn; lia).
  rewrite length_skipn, lookup_drop. f_equal. lia.
Qed.

Lemma getRecentBlocks_spec_witness :
  length (GSCBlockchain.getRecentBlocks settled 1)
  = Nat.min (Z.to_nat 1) (length (GSCBlockchain.chain settled))
  ∧ ∀ i : nat, (i < length (GSCBlockchain.getRecentBlocks settled 1))%nat →
      GSCBlockchain.getRecentBlocks settled 1 !! i
      = GSCBlockchain.chain settled
          !! (length (GSCBlockchain.chain settled) - 1 - i)%nat.
Proof.
  apply (proj1 (getRecentBlocks_spec settled 1)). lia.
Defined.

Lemma indexed_snoc (L L' : GSCBlockchain.t) (b : Block.t) :
  indexed L →
  Block.index b = Z.of_nat (length (GSCBlockchain.chain L)) →
  GSCBlockchain.chain L' = (GSCBlockchain.chain L ++ [b])%list →
  indexed L'.
Proof.
  intros Hidx Hb Hchain i c Hc. rewrite Hchain in Hc.
  destruct (decide (i < length (GSCBlockchain.chain L))%nat) as [Hlt|Hge].
  - rewrite lookup_app_l in Hc by lia. exact (Hidx i c Hc).
  - pose proof (lookup_lt_Some _ _ _ Hc) as Hi. rewrite length_app in Hi.
    cbn in Hi. assert (i = length (GSCBlockchain.chain L)) as -> by lia.
    rewrite list_lookup_middle in Hc by reflexivity.
    injection Hc as <-. exact Hb.
Qed.

(** minePendingTransactions keeps the numbering: when every block of
    the chain carries its position as index, this is still so after
    the call has returned, and a block it returns is the one
    getBlockByIndex answers for that block's index. *)
Theorem minePendingTransactions_keeps_indexed (fuel : nat)
    (now_tx now_block : Z) (L L' : GSCBlockchain.t) (minerAddress : string)
    (forceMine : bool) (r : option Block.t) :
  indexed L →
  GSCBlockchain.minePendingTransactions fuel now_tx now_block L minerAddress
    forceMine
  = GSCBlockchain.Returned r L' →
  indexed L'
  ∧ ∀ b, r = Some b →
         GSCBlockchain.getBlockByIndex L' (Block.index b) = Some b.
Proof.
  intros Hidx Hrun. destruct r as [b|].
  2:{ apply minePendingTransactions_null in Hrun. subst L'.
      split; [exact Hidx | discriminate]. }
  apply minePendingTransactions_success in Hrun.
  destruct Hrun as (tip & _ & _ & _ & Hi & _ & _ & _ & _ & _ & ->).
  split.
  - apply (indexed_snoc L _ b Hidx Hi). reflexivity.
  - intros b' [= <-]. unfold GSCBlockchain.getBlockByIndex.
    rewrite Hi. destruct (Z.ltb_spec (Z.of_nat (length (GSCBlockchain.chain L))) 0);
      [lia |].
    rewrite Nat2Z.id.
    cbn [GSCBlockchain.chain GSCBlockchain.set_mempool
         GSCBlockchain.updateBalances GSCBlockchain.set_balances
         GSCBlockchain.set_chain].
    apply list_lookup_middle. reflexivity.
Qed.

Lemma fresh_indexed : indexed fresh.
Proof.
  intros [|[|i]] b; cbn; intros H; try discriminate.
  injection H as <-. reflexivity.
Qed.

Lemma minePendingTransactions_keeps_indexed_witness :
  indexed settled
  ∧ ∀ b, Some paid_block = Some b →
         GSCBlockchain.getBlockByIndex settled (Block.index b) = Some b.
Proof.
  apply (minePendingTransactions_keeps_indexed 1 mining_time mining_time
           submitted settled addressM false (Some paid_block)).
  - exact fresh_indexed.
  - vm_compute. reflexivity.
Defined.

(** In a chain whose blocks carry their positions, getBlockByIndex
    finds exactly the block of the chain with the index asked for, and
    answers null for a negative index and for an index at or beyond the
    length of the chain. *)
Theorem getBlockByIndex_spec (L : GSCBlockchain.t) (index : Z) :
  indexed L →
  (∀ b, GSCBlockchain.getBlockByIndex L index = Some b
        ↔ In b (GSCBlockchain.chain L) ∧ Block.index b = index)
  ∧ (GSCBlockchain.getBlockByIndex L index = None
     ↔ index < 0 ∨ Z.of_nat (length (GSCBlockchain.chain L)) <= index).
Proof.
  intros Hidx. unfold GSCBlockchain.getBlockByIndex. split.
  - intros b. destruct (Z.ltb_spec index 0) as [Hneg|Hpos].
    + split; [discriminate |]. intros [Hin Hb].
      apply list_elem_of_In, list_elem_of_lookup in Hin. destruct Hin as [i Hi].
      pose proof (Hidx i b Hi). lia.
    + split.
      * intros H. split.
        { apply list_elem_of_In, list_elem_of_lookup. eauto. }
        { rewrite (Hidx _ b H). lia. }
      * intros [Hin Hb].
        apply list_elem_of_In, list_elem_of_lookup in Hin. destruct Hin as [i Hi].
        pose proof (Hidx i b Hi) as Hbi.
        replace (Z.to_nat index) with i by lia. exact Hi.
  - destruct (Z.ltb_spec index 0) as [Hneg|Hpos]; [tauto |].
    rewrite lookup_ge_None. lia.
Qed.

Lemma getBlockByIndex_spec_witness :
  (∀ b, GSCBlockchain.getBlockByIndex fresh 5 = Some b
        ↔ In b (GSCBlockchain.chain fresh) ∧ Block.index b = 5)
  ∧ (GSCBlockchain.getBlockByIndex fresh 5 = None
     ↔ 5 < 0 ∨ Z.of_nat (length (GSCBlockchain.chain fresh)) <= 5).
Proof. apply (getBlockByIndex_spec fresh 5). exact fresh_indexed. Defined.

Lemma find_txId (pool : list Transaction.t) (id : string) :
  match List.find (λ tx, String.eqb (Transaction.txId tx) id) pool with
  | Some tx => In tx pool ∧ Transaction.txId tx = id
  | None => ¬ In id (map Transaction.txId pool)
  end.
Proof.
  destruct (List.find _ pool) as [tx|] eqn:E.
  - apply find_some in E. rewrite String.eqb_eq in E. exact E.
  - intros Hin. apply in_map_iff in Hin. destruct Hin as (x & Hx & Hin).
    pose proof (find_none _ _ E x Hin) as Hn. cbn in Hn.
    apply String.eqb_neq in Hn. congruence.
Qed.

Lemma find_in_chain_spec (id : string) (blocks : list Block.t) :
  match GSCBlockchain.find_in_chain id blocks with
  | Some (tx, i) =>
      Transaction.txId tx = id
      ∧ ∃ b, In b blocks ∧ In tx (Block.transactions b) ∧ Block.index b = i
  | None =>
      ∀ b, In b blocks →
           ¬ In id (map Transaction.txId (Block.transactions b))
  end.
Proof.
  induction blocks as [|b blocks IH]; cbn [GSCBlockchain.find_in_chain].
  - intros b [].
  - pose proof (find_txId (Block.transactions b) id) as Hb.
    destruct (List.find _ (Block.transactions b)) as [tx|].
    + destruct Hb as [Hin Hid]. split; [exact Hid |].
      exists b. split; [left; reflexivity | split; [exact Hin | reflexivity]].
    + destruct (GSCBlockchain.find_in_chain id blocks) as [[tx i]|].
      * destruct IH as (Hid & c & Hc & Hin & Hi). split; [exact Hid |].
        exists c. split; [right; exact Hc | split; [exact Hin | exact Hi]].
      * intros c [<- | Hc]; [exact Hb | exact (IH c Hc)].
Qed.

(** getTransactionById answers a transaction carrying the identifier
    asked for.  It looks in the chain first: an answer with a block
    index comes from a block of the chain with that index, and an
    answer with block index -1 that comes from the mempool is given
    only when no block holds the identifier.  It answers null exactly
    when neither the chain nor the mempool holds it. *)
Theorem getTransactionById_spec (L : GSCBlockchain.t) (id : string) :
  match GSCBlockchain.getTransactionById L id with
  | Some (tx, blockIndex) =>
      Transaction.txId tx = id
      ∧ ((∃ b, In b (GSCBlockchain.chain L)
               ∧ In tx (Block.transactions b) ∧ Block.index b = blockIndex)
         ∨ (blockIndex = -1
            ∧ In tx (GSCBlockchain.mempool L)
            ∧ ∀ b, In b (GSCBlockchain.chain L) →
                 ¬ In id (map Transaction.txId (Block.transactions b))))
  | None =>
      (∀ b, In b (GSCBlockchain.chain L) →
            ¬ In id (map Transaction.txId (Block.transactions b)))
      ∧ ¬ In id (map Transaction.txId (GSCBlockchain.mempool L))
  end.
Proof.
  unfold GSCBlockchain.getTransactionById.
  pose proof (find_in_chain_spec id (GSCBlockchain.chain L)) as Hc.
  destruct (GSCBlockchain.find_in_chain id (GSCBlockchain.chain L))
    as [[tx i]|].
  - destruct Hc as [Hid Hb]. split; [exact Hid | left; exact Hb].
  - pose proof (find_txId (GSCBlockchain.mempool L) id) as Hm.
    destruct (List.find _ (GSCBlockchain.mempool L)) as [tx|].
    + destruct Hm as [Hin Hid]. split; [exact Hid |]. right. tauto.
    + split; assumption.
Qed.

(** After [payment] was mined and then admitted to the mempool again,
    the lookup answers the mined copy, in block 1. *)
Example getTransactionById_prefers_chain :
  GSCBlockchain.getTransactionById
    (GSCBlockchain.set_mempool [payment] settled) (Transaction.txId payment)
  = Some (payment, 1).
Proof. vm_compute. reflexivity. Qed.

(** ** toJSON and fromJSON *)

Lemma Transaction_fromJSON_fields (now : Z) (d : Transaction.data) :
  Transaction.fromJSON now d
  = Transaction.mk (Transaction.d_sender d) (Transaction.d_receiver d)
      (Transaction.d_amount d) (Transaction.d_fee d)
      (if Transaction.d_timestamp d =? 0 then now
       else Transaction.d_timestamp d)
      (Transaction.d_signature d) (Transaction.d_txId d).
Proof. reflexivity. Qed.

Lemma Transaction_roundtrip (now : Z) (tx : Transaction.t) :
  Transaction.timestamp tx ≠ 0 →
  Transaction.fromJSON now (Transaction.toJSON_object tx) = tx.
Proof.
  intros Hts. rewrite Transaction_fromJSON_fields. destruct tx as [s r a f ts sg id].
  cbn in *. destruct (Z.eqb_spec ts 0); [contradiction | reflexivity].
Qed.

(** A transaction written by toJSON and read back by fromJSON is the
    same transaction, stored identifier and signature included,
    provided its timestamp is not 0.  A timestamp 0 is read back as the
    time of reading, every other field as stored.  The identifier is
    never recomputed on reading. *)
Theorem Transaction_fromJSON_toJSON (now : Z) (tx : Transaction.t) :
  (Transaction.timestamp tx ≠ 0 →
   Transaction.fromJSON now (Transaction.toJSON_object tx) = tx)
  ∧ (Transaction.timestamp tx = 0 →
     Transaction.fromJSON now (Transaction.toJSON_object tx)
     = Transaction.mk (Transaction.sender tx) (Transaction.receiver tx)
         (Transaction.amount tx) (Transaction.fee tx) now
         (Transaction.signature tx) (Transaction.txId tx))
  ∧ (∀ d, Transaction.txId (Transaction.fromJSON now d)
          = Transaction.d_txId d).
Proof.
  split; [exact (Transaction_roundtrip now tx) |]. split; [| reflexivity].
  intros Hts. rewrite Transaction_fromJSON_fields. cbn. rewrite Hts.
  reflexivity.
Qed.

Lemma Transaction_fromJSON_toJSON_witness :
  Transaction.fromJSON 7 (Transaction.toJSON_object payment) = payment.
Proof.
  apply (proj1 (Transaction_fromJSON_toJSON 7 payment)).
  vm_compute. discriminate.
Defined.

Lemma imap_fromJSON (now_tx : nat → Z) (txs : list Transaction.t) :
  Forall (λ tx, Transaction.timestamp tx ≠ 0) txs →
  imap (λ i d, Transaction.fromJSON (now_tx i) d)
       (map Transaction.toJSON_object txs)
  = txs.
Proof.
  intros H. revert now_tx.
  induction H as [|tx txs Htx _ IH]; intros now_tx; cbn; [reflexivity |].
  rewrite (Transaction_roundtrip _ tx Htx). f_equal.
  exact (IH (now_tx ∘ S)).
Qed.

Lemma Block_roundtrip (now_tx : nat → Z) (now : Z) (b : Block.t) :
  Block.timestamp b ≠ 0 →
  Forall (λ tx, Transaction.timestamp tx ≠ 0) (Block.transactions b) →
  Block.fromJSON now_tx now (Block.toJSON_object b) = b.
Proof.
  intros Hts Htxs. unfold Block.fromJSON, Block.toJSON_object.
  cbn [Block.d_index Block.d_timestamp Block.d_transactions
       Block.d_previousHash Block.d_nonce Block.d_hash Block.d_merkleRoot
       Block.d_difficulty Block.d_miner Block.d_reward].
  rewrite (imap_fromJSON now_tx _ Htxs).
  destruct b as [i ts txs p n d h m mi r]. cbn in *.
  unfold Block.new. destruct (Z.eqb_spec ts 0); [contradiction | reflexivity].
Qed.

(** A block written by toJSON and read back by fromJSON is the same
    block when neither its timestamp nor that of any of its
    transactions is 0; it then passes isValid exactly when it did
    before.  Hash, Merkle root, miner and reward are never recomputed
    on reading: they are the stored ones, whatever the other fields
    say. *)
Theorem Block_fromJSON_toJSON (now_tx : nat → Z) (now : Z) (b : Block.t) :
  (Block.timestamp b ≠ 0 →
   Forall (λ tx, Transaction.timestamp tx ≠ 0) (Block.transactions b) →
   Block.fromJSON now_tx now (Block.toJSON_object b) = b
   ∧ ∀ prev, Block.isValid (Block.fromJSON now_tx now (Block.toJSON_object b))
                           prev
             = Block.isValid b prev)
  ∧ (∀ d, Block.hash (Block.fromJSON now_tx now d) = Block.d_hash d
          ∧ Block.merkleRoot (Block.fromJSON now_tx now d)
            = Block.d_merkleRoot d
          ∧ Block.miner (Block.fromJSON now_tx now d) = Block.d_miner d
          ∧ Block.reward (Block.fromJSON now_tx now d) = Block.d_reward d).
Proof.
  split.
  - intros Hts Htxs. rewrite (Block_roundtrip now_tx now b Hts Htxs).
    split; reflexivity.
  - intros d. repeat split.
Qed.

Lemma Block_fromJSON_toJSON_witness :
  Block.fromJSON (λ _, 7) 7 (Block.toJSON_object paid_block) = paid_block
  ∧ ∀ prev, Block.isValid
              (Block.fromJSON (λ _, 7) 7 (Block.toJSON_object paid_block)) prev
            = Block.isValid paid_block prev.
Proof.
  apply (proj1 (Block_fromJSON_toJSON (λ _, 7) 7 paid_block)).
  - vm_compute. discriminate.
  - repeat (constructor; [vm_compute; discriminate |]). constructor.
Defined.

(** ** saveBlockchain and loadBlockchain *)

Lemma map_Block_roundtrip (now : Z) (blocks : list Block.t) :
  Forall (λ b, Block.timestamp b ≠ 0
               ∧ Forall (λ tx, Transaction.timestamp tx ≠ 0)
                        (Block.transactions b)) blocks →
  map (Block.fromJSON (λ _, now) now) (map Block.toJSON_object blocks)
  = blocks.
Proof.
  induction 1 as [|b blocks [Hts Htxs] _ IH]; cbn [map]; [reflexivity |].
  rewrite (Block_roundtrip _ now b Hts Htxs), IH. reflexivity.
Qed.

Lemma map_Transaction_roundtrip (now : Z) (txs : list Transaction.t) :
  Forall (λ tx, Transaction.timestamp tx ≠ 0) txs →
  map (Transaction.fromJSON now) (map Transaction.toJSON_object txs) = txs.
Proof.
  induction 1 as [|tx txs Hts _ IH]; cbn [map]; [reflexivity |].
  rewrite (Transaction_roundtrip now tx Hts), IH. reflexivity.
Qed.

(** Loading what saveBlockchain wrote.  When the saved chain has at
    least two blocks, no timestamp in it or in the saved mempool is 0
    and the saved current supply is not 0, loadBlockchain puts the
    saved chain, mempool, balances and current supply in place of the
    ledger's own and leaves the other fields alone; the balances are
    the saved ones, not recomputed.  When the saved chain has fewer
    than two blocks, or there is no readable file, the ledger stays as
    it is, so a mempool saved beside a chain of genesis alone is not
    restored. *)
Theorem loadBlockchain_saveBlockchain (now : Z) (L L0 : GSCBlockchain.t) :
  ((1 < length (GSCBlockchain.chain L))%nat →
   Forall (λ b, Block.timestamp b ≠ 0
                ∧ Forall (λ tx, Transaction.timestamp tx ≠ 0)
                         (Block.transactions b)) (GSCBlockchain.chain L) →
   Forall (λ tx, Transaction.timestamp tx ≠ 0) (GSCBlockchain.mempool L) →
   ¬ (GSCBlockchain.currentSupply L == 0)%Q →
   GSCBlockchain.loadBlockchain now (Some (GSCBlockchain.saveBlockchain L)) L0
   = GSCBlockchain.set_currentSupply (GSCBlockchain.currentSupply L)
       (GSCBlockchain.set_balances (GSCBlockchain.balances L)
          (GSCBlockchain.set_mempool (GSCBlockchain.mempool L)
             (GSCBlockchain.set_chain (GSCBlockchain.chain L) L0))))
  ∧ ((length (GSCBlockchain.chain L) ≤ 1)%nat →
     GSCBlockchain.loadBlockchain now (Some (GSCBlockchain.saveBlockchain L)) L0
     = L0)
  ∧ GSCBlockchain.loadBlockchain now None L0 = L0.
Proof.
  unfold GSCBlockchain.loadBlockchain, GSCBlockchain.saveBlockchain.
  cbn [GSCBlockchain.s_chain GSCBlockchain.s_mempool GSCBlockchain.s_balances
       GSCBlockchain.s_currentSupply from_option id].
  rewrite length_map.
  split; [| split; [| reflexivity]].
  - intros Hlen Hchain Hpool Hsupply.
    destruct (Nat.ltb_spec 1 (length (GSCBlockchain.chain L))); [| lia].
    rewrite (map_Block_roundtrip now _ Hchain),
      (map_Transaction_roundtrip now _ Hpool).
    destruct (Qeq_bool (GSCBlockchain.currentSupply L) 0) eqn:E;
      [apply Qeq_bool_iff in E; contradiction | reflexivity].
  - intros Hlen.
    destruct (Nat.ltb_spec 1 (length (GSCBlockchain.chain L))); [lia |].
    reflexivity.
Qed.

Lemma loadBlockchain_saveBlockchain_witness :
  GSCBlockchain.loadBlockchain 7
    (Some (GSCBlockchain.saveBlockchain settled)) fresh
  = GSCBlockchain.set_currentSupply (GSCBlockchain.currentSupply settled)
      (GSCBlockchain.set_balances (GSCBlockchain.balances settled)
         (GSCBlockchain.set_mempool (GSCBlockchain.mempool settled)
            (GSCBlockchain.set_chain (GSCBlockchain.chain settled) fresh))).
Proof.
  apply (proj1 (loadBlockchain_saveBlockchain 7 settled fresh)).
  - cbn. lia.
  - repeat (constructor;
            [split; [vm_compute; discriminate
                    | repeat (constructor; [vm_compute; discriminate |]);
                      constructor] |]).
    constructor.
  - constructor.
  - vm_compute. discriminate.
Defined.

(** The pending [payment] saved beside the genesis block alone is gone
    after a restart. *)
Example loadBlockchain_drops_mempool :
  GSCBlockchain.mempool submitted = [payment]
  ∧ GSCBlockchain.mempool
      (GSCBlockchain.loadBlockchain 7
         (Some (GSCBlockchain.saveBlockchain submitted)) fresh) = [].
Proof. split; reflexivity. Qed.

(** ** Wallet addresses *)

Lemma hex_digit_is_hex (x : Z) : is_hex_char (SHA256.hex_digit (x mod 16)) = true.
Proof.
  pose proof (Z.mod_pos_bound x 16 ltac:(lia)) as Hb.
  assert (H : x mod 16 = 0 ∨ x mod 16 = 1 ∨ x mod 16 = 2 ∨ x mod 16 = 3
            ∨ x mod 16 = 4 ∨ x mod 16 = 5 ∨ x mod 16 = 6 ∨ x mod 16 = 7
            ∨ x mod 16 = 8 ∨ x mod 16 = 9 ∨ x mod 16 = 10 ∨ x mod 16 = 11
            ∨ x mod 16 = 12 ∨ x mod 16 = 13 ∨ x mod 16 = 14 ∨ x mod 16 = 15)
    by lia.
  repeat (destruct H as [-> | H]; [reflexivity |]). rewrite H. reflexivity.
Qed.

(** A generated address is the text GSC followed by 32 lower-case
    hexadecimal digits, 35 characters in all, whatever the private key
    is.  It is therefore not empty and is neither of the two sender
    names the ledger treats as system senders. *)
Theorem generateAddress_shape (privateKey : string) :
  ∃ digits,
    WalletManager.generateAddress privateKey = "GSC" +:+ digits
    ∧ String.length digits = 32%nat
    ∧ all_hex digits = true
    ∧ String.length (WalletManager.generateAddress privateKey) = 35%nat
    ∧ falsy_str (WalletManager.generateAddress privateKey) = false
    ∧ GSCBlockchain.is_system (WalletManager.generateAddress privateKey)
      = false.
Proof.
  unfold WalletManager.generateAddress, sha256_hex, SHA256.hex, SHA256.hex_word.
  cbv zeta. cbn [substring].
  eexists. split; [reflexivity |]. split; [reflexivity |].
  split.
  { cbn [all_hex]. rewrite !hex_digit_is_hex. reflexivity. }
  split; [reflexivity |]. split; reflexivity.
Qed.

(** ** The reward as the chain grows *)

Lemma Qdiv_le_denominator (r x y : Q) :
  (0 <= r)%Q → (0 < x)%Q → (x <= y)%Q → (r / y <= r / x)%Q.
Proof.
  intros Hr Hx Hxy.
  assert (Hy : (0 < y)%Q) by lra.
  apply Qle_shift_div_l; [exact Hx |].
  assert (E : (r / y * x == r * (x / y))%Q) by (field; lra).
  rewrite E.
  assert (H1 : (x / y <= 1)%Q) by (apply Qle_shift_div_r; lra).
  nra.
Qed.

(** With a non-negative base reward and a positive halving interval,
    the current reward is never negative, never increases when the
    chain grows, and is 0 once the chain is more than 64 intervals and
    one block past genesis. *)
Theorem getCurrentReward_never_increases (L1 L2 : GSCBlockchain.t) :
  (0 <= GSCBlockchain.miningReward L1)%Q →
  0 < GSCBlockchain.halvingInterval L1 →
  GSCBlockchain.miningReward L2 = GSCBlockchain.miningReward L1 →
  GSCBlockchain.halvingInterval L2 = GSCBlockchain.halvingInterval L1 →
  (1 ≤ length (GSCBlockchain.chain L1) ≤ length (GSCBlockchain.chain L2))%nat →
  (0 <= GSCBlockchain.getCurrentReward L2)%Q
  ∧ (GSCBlockchain.getCurrentReward L2 <= GSCBlockchain.getCurrentReward L1)%Q
  ∧ (64 * GSCBlockchain.halvingInterval L1 + 1
     < Z.of_nat (length (GSCBlockchain.chain L2)) →
     GSCBlockchain.getCurrentReward L2 = 0%Q).
Proof.
  intros Hr HI ER EI [H1 H12].
  set (h1 := Z.of_nat (length (GSCBlockchain.chain L1)) - 1).
  set (h2 := Z.of_nat (length (GSCBlockchain.chain L2)) - 1).
  rewrite (getCurrentReward_height L1 h1), (getCurrentReward_height L2 h2)
    by (unfold h1, h2; lia).
  rewrite ER, EI.
  set (I := GSCBlockchain.halvingInterval L1) in *.
  set (R := GSCBlockchain.miningReward L1) in *.
  assert (Hh : 0 <= h1 <= h2) by (unfold h1, h2; lia).
  assert (Hpow : ∀ k, 0 <= k → (1 <= Qpower 2 k)%Q).
  { intros k Hk. apply Qpower_1_le; [lra | exact Hk]. }
  assert (Hdiv : ∀ k, 0 <= k → (0 <= R / Qpower 2 k <= R)%Q).
  { intros k Hk. pose proof (Hpow k Hk) as Hp. split.
    - apply Qle_shift_div_l; lra.
    - apply Qle_shift_div_r; [lra |]. nra. }
  assert (Hk2 : 0 < h2 → 0 <= (h2 - 1) / I)
    by (intros; apply Z.div_pos; lia).
  split; [| split].
  - destruct (Z.eqb_spec h2 0); [exact Hr |].
    destruct ((h2 - 1) / I >=? 64); [lra |].
    apply Hdiv. apply Hk2. lia.
  - destruct (Z.eqb_spec h1 0) as [E1|N1].
    + destruct (Z.eqb_spec h2 0); [lra |].
      destruct ((h2 - 1) / I >=? 64); [lra |].
      apply Hdiv. apply Hk2. lia.
    + destruct (Z.eqb_spec h2 0); [lia |].
      assert (Hmono : (h1 - 1) / I <= (h2 - 1) / I)
        by (apply Z.div_le_mono; lia).
      assert (Hk1 : 0 <= (h1 - 1) / I) by (apply Z.div_pos; lia).
      destruct (Z.geb_spec ((h1 - 1) / I) 64);
        destruct (Z.geb_spec ((h2 - 1) / I) 64); try lra; try lia.
      * apply Hdiv. exact Hk1.
      * apply Qdiv_le_denominator; [exact Hr | |].
        { pose proof (Hpow _ Hk1). lra. }
        { apply Qpower_le_compat_l; [exact Hmono | lra]. }
  - intros Hfar.
    destruct (Z.eqb_spec h2 0); [unfold h2 in *; lia |].
    destruct (Z.geb_spec ((h2 - 1) / I) 64) as [_|Hlt]; [reflexivity |].
    exfalso. assert (64 <= (h2 - 1) / I); [| lia].
    apply Z.div_le_lower_bound; unfold h2 in *; lia.
Qed.

Lemma getCurrentReward_never_increases_witness :
  (0 <= GSCBlockchain.getCurrentReward settled)%Q
  ∧ (GSCBlockchain.getCurrentReward settled
     <= GSCBlockchain.getCurrentReward fresh)%Q
  ∧ (64 * GSCBlockchain.halvingInterval fresh + 1
     < Z.of_nat (length (GSCBlockchain.chain settled)) →
     GSCBlockchain.getCurrentReward settled = 0%Q).
Proof.
  apply (getCurrentReward_never_increases fresh settled).
  - vm_compute. discriminate.
  - reflexivity.
  - reflexivity.
  - reflexivity.
  - cbn. lia.
Defined.

(** ** Transactions made by the constructor, and signing *)


Lemma new64_isValid_iff (now : Z) (s r : string) (a f : float)
    (ts : option Z) :
  Binary64.Transaction.isValid (Binary64.Transaction.new now s r a f ts) = true
  ↔ s ≠ "" ∧ r ≠ ""
    ∧ PrimFloat.leb a PrimFloat.zero = false
    ∧ PrimFloat.ltb f PrimFloat.zero = false.
Proof.
  rewrite isValid_binary64.
  cbn [Binary64.Transaction.new Binary64.Transaction.set_txId
       Binary64.Transaction.sender Binary64.Transaction.receiver
       Binary64.Transaction.amount Binary64.Transaction.fee
       Binary64.Transaction.txId Binary64.Transaction.timestamp].
  rewrite parseFloat_leb_zero, parseFloat_ltb_zero.
  unfold Binary64.Transaction.calculateHash.
  cbn [Binary64.Transaction.sender Binary64.Transaction.receiver
       Binary64.Transaction.amount Binary64.Transaction.fee
       Binary64.Transaction.timestamp].
  tauto.
Qed.

(** A transaction made by the constructor is valid exactly when sender
    and receiver are non-empty, the amount is greater than 0 or NaN,
    and the fee is at least 0 or NaN; its stored identifier always
    matches the recomputation.  signTransaction changes neither the
    identifier nor what isValid answers, and stores a signature of 64
    characters. *)
Theorem Transaction_new_isValid (now : Z) (s r : string) (a f : float)
    (ts : option Z) (privateKey : string) :
  (Binary64.Transaction.isValid (Binary64.Transaction.new now s r a f ts) = true
   ↔ s ≠ "" ∧ r ≠ ""
     ∧ (PrimFloat.ltb PrimFloat.zero a = true ∨ PrimFloat.is_nan a = true)
     ∧ (PrimFloat.leb PrimFloat.zero f = true ∨ PrimFloat.is_nan f = true))
  ∧ ∀ tx,
      Binary64.Transaction.isValid
        (Binary64.Transaction.signTransaction privateKey tx)
      = Binary64.Transaction.isValid tx
      ∧ Binary64.Transaction.txId
          (Binary64.Transaction.signTransaction privateKey tx)
        = Binary64.Transaction.txId tx
      ∧ String.length
          (Binary64.Transaction.signature
             (Binary64.Transaction.signTransaction privateKey tx))
        = 64%nat.
Proof.
  split.
  - rewrite new64_isValid_iff, not_leb_zero, not_ltb_zero. tauto.
  - intros tx. split; [reflexivity |]. split; [reflexivity |].
    apply sha256_hex_length.
Qed.

(** ** The Merkle root and a repeated last transaction *)

Lemma merkle_loop_fuel (f1 f2 : nat) (hs : list string) :
  (length hs ≤ f1)%nat → (length hs ≤ f2)%nat →
  Block.merkle_loop f1 hs = Block.merkle_loop f2 hs.
Proof.
  revert f2 hs. induction f1 as [|f1 IH]; intros f2 hs H1 H2.
  - destruct hs; [| cbn in H1; lia]. destruct f2; reflexivity.
  - destruct f2 as [|f2].
    + destruct hs; [reflexivity | cbn in H2; lia].
    + cbn [Block.merkle_loop].
      destruct (1 <? length hs)%nat eqn:E; [| reflexivity].
      apply Nat.ltb_lt in E.
      pose proof (merkle_level_shrinks hs E). apply IH; lia.
Qed.

Lemma merkle_level_repeat_last (hs : list string) (h : string) :
  Nat.even (length hs) = true → falsy_str h = false →
  Block.merkle_level (hs ++ [h; h]) = Block.merkle_level (hs ++ [h]).
Proof.
  intros Heven Hh.
  induction hs as [| x | x y l IH] using list_pair_ind.
  - cbn. rewrite Hh. reflexivity.
  - discriminate.
  - cbn [app Block.merkle_level]. rewrite (IH Heven). reflexivity.
Qed.

Lemma calculateMerkleRoot_nonempty (b : Block.t) :
  Block.transactions b ≠ [] →
  Block.calculateMerkleRoot b
  = hd "" (Block.merkle_loop (length (map Block.leaf (Block.transactions b)))
                             (map Block.leaf (Block.transactions b))).
Proof.
  unfold Block.calculateMerkleRoot.
  destruct (Block.transactions b); [congruence | reflexivity].
Qed.

Lemma merkle_loop_step (f : nat) (hs : list string) :
  (1 < length hs)%nat →
  Block.merkle_loop (S f) hs = Block.merkle_loop f (Block.merkle_level hs).
Proof.
  intros H. cbn [Block.merkle_loop].
  apply Nat.ltb_lt in H. rewrite H. reflexivity.
Qed.

Lemma merkle_loop_repeat_last (hs : list string) (h : string) :
  hs ≠ [] → Nat.even (length hs) = true → falsy_str h = false →
  Block.merkle_loop (length (hs ++ [h; h])) (hs ++ [h; h])
  = Block.merkle_loop (length (hs ++ [h])) (hs ++ [h]).
Proof.
  intros Hne Heven Hh.
  assert (Hlen : (0 < length hs)%nat) by (destruct hs; [congruence | cbn; lia]).
  rewrite (length_app hs [h; h]), (length_app hs [h]). cbn [length].
  replace (length hs + 2)%nat with (S (S (length hs))) by lia.
  replace (length hs + 1)%nat with (S (length hs)) by lia.
  rewrite (merkle_loop_step (S (length hs)) (hs ++ [h; h]))
    by (rewrite length_app; cbn; lia).
  rewrite (merkle_loop_step (length hs) (hs ++ [h]))
    by (rewrite length_app; cbn; lia).
  rewrite (merkle_level_repeat_last hs h Heven Hh).
  pose proof (merkle_level_shrinks (hs ++ [h])) as Hs.
  rewrite length_app in Hs. cbn [length] in Hs.
  apply merkle_loop_fuel; lia.
Qed.

(** A block with an odd number of transactions, three or more, has the
    same Merkle root as the block that holds the last transaction
    twice: the root does not tell the two lists apart. *)
Theorem calculateMerkleRoot_repeated_last (b : Block.t)
    (txs : list Transaction.t) (tx : Transaction.t) :
  txs ≠ [] → Nat.even (length txs) = true →
  Block.transactions b = (txs ++ [tx])%list →
  Block.calculateMerkleRoot
    (Block.mk (Block.index b) (Block.timestamp b) (txs ++ [tx; tx])
       (Block.previousHash b) (Block.nonce b) (Block.difficulty b)
       (Block.hash b) (Block.merkleRoot b) (Block.miner b) (Block.reward b))
  = Block.calculateMerkleRoot b.
Proof.
  intros Hne Heven Htxs.
  rewrite !calculateMerkleRoot_nonempty.
  2:{ rewrite Htxs. destruct txs; discriminate. }
  2:{ cbn [Block.transactions]. destruct txs; discriminate. }
  rewrite Htxs. cbn [Block.transactions]. rewrite !map_app. cbn [map].
  f_equal. apply merkle_loop_repeat_last.
  - destruct txs; [congruence | discriminate].
  - rewrite length_map. exact Heven.
  - apply leaf_truthy.
Qed.

Lemma calculateMerkleRoot_repeated_last_witness :
  Block.calculateMerkleRoot
    (Block.mk (Block.index paid_block) (Block.timestamp paid_block)
       (Block.transactions paid_block ++ [payment; payment])
       (Block.previousHash paid_block) (Block.nonce paid_block)
       (Block.difficulty paid_block) (Block.hash paid_block)
       (Block.merkleRoot paid_block) (Block.miner paid_block)
       (Block.reward paid_block))
  = Block.calculateMerkleRoot
      (Block.mk (Block.index paid_block) (Block.timestamp paid_block)
         (Block.transactions paid_block ++ [payment])
         (Block.previousHash paid_block) (Block.nonce paid_block)
         (Block.difficulty paid_block) (Block.hash paid_block)
         (Block.merkleRoot paid_block) (Block.miner paid_block)
         (Block.reward paid_block)).
Proof.
  apply (calculateMerkleRoot_repeated_last
           (Block.mk (Block.index paid_block) (Block.timestamp paid_block)
              (Block.transactions paid_block ++ [payment])
              (Block.previousHash paid_block) (Block.nonce paid_block)
              (Block.difficulty paid_block) (Block.hash paid_block)
              (Block.merkleRoot paid_block) (Block.miner paid_block)
              (Block.reward paid_block))
           (Block.transactions paid_block) payment).
  - discriminate.
  - reflexivity.
  - reflexivity.
Defined.

(** ** The two ends of the difficulty range *)

Lemma substring_length_le (d : nat) (s : string) :
  (String.length (substring 0 d s) ≤ String.length s)%nat.
Proof.
  revert s. induction d as [|d IH]; intros [|c s]; cbn; try lia.
  specialize (IH s). lia.
Qed.

Lemma mine_loop_never (fuel d : nat) (b : Block.t) :
  (64 < d)%nat → (String.length (Block.hash b) ≤ 64)%nat →
  Block.mine_loop fuel d b = None.
Proof.
  intros Hd. revert b. induction fuel as [|f IH]; intros b Hlen;
    rewrite mine_loop_unfold;
    (destruct (String.eqb_spec (substring 0 d (Block.hash b))
                               (String_repeat "0" d)) as [E|_];
     [exfalso; pose proof (substring_length_le d (Block.hash b)) as Hle;
      rewrite E, String_repeat_length in Hle; lia |]); cbn [negb].
  - reflexivity.
  - apply IH. cbn [Block.hash Block.set_hash]. unfold Block.calculateHash.
    rewrite sha256_hex_length. lia.
Qed.

(** At difficulty 0 mineBlock returns at once: it records the miner and
    leaves nonce and hash as they were.  At a difficulty above 64, the
    length of a hash, it never returns, however long it runs. *)
Theorem mineBlock_difficulty_extremes (fuel : nat) (m : string) (b : Block.t) :
  Block.mineBlock fuel 0 m b
  = Some (Block.mkStats (Block.nonce b) (Block.hash b), Block.set_miner m b)
  ∧ ∀ d, (64 < d)%nat → (String.length (Block.hash b) ≤ 64)%nat →
         Block.mineBlock fuel d m b = None.
Proof.
  unfold Block.mineBlock. split.
  - rewrite mine_loop_unfold.
    replace (substring 0 0 (Block.hash (Block.set_miner m b))) with ""
      by (destruct (Block.hash (Block.set_miner m b)); reflexivity).
    reflexivity.
  - intros d Hd Hlen. rewrite mine_loop_never; [reflexivity | exact Hd |].
    exact Hlen.
Qed.

Lemma mineBlock_difficulty_extremes_witness :
  Block.mineBlock 1000 65 addressM genesis_candidate = None.
Proof.
  apply (proj2 (mineBlock_difficulty_extremes 1000 addressM genesis_candidate)).
  - lia.
  - vm_compute. lia.
Defined.

(** ** What addBlock does not check *)



(** ** What a mined block pays the miner *)



